(** * activerecord: attribute registry and association resolvers

    A shallow embedding of [activerecord/attibute.go] and
    [activerecord/association.go], and the properties of the attribute
    registry, the three association resolvers ([BelongsTo], [HasMany],
    [HasOne]) and the association registry that dispatches to them.

    Conventions of the embedding.
    - A Go pointer [*T] is [ptr T = option T]; [None] is [nil].
    - A Go [map[string]T] is a [gmap string T].  A map that the code tests
      against [nil] is an [option (gmap string T)], [None] being the nil map.
    - [for k, v := range m] visits the entries of [m] in an order the
      language leaves open; the order is a parameter ([GoRuntime]), known
      only to be a permutation of the entries.
    - The package's collaborators that live outside these two files
      ([Relation], [Reflection], [ActiveRecord], the validators) are
      parameters ([Types], [Collaborators]); their methods are total
      functions, and every call of a method that consults the schema
      registry or executes a query is recorded in a log of [Call]s. *)

From Stdlib Require Import String Ascii ZArith List.
From stdpp Require Import base option list sorting gmap strings fin_maps.

Open Scope string_scope.
Open Scope list_scope.

(** ** Go values *)

Definition ptr (A : Type) : Type := option A.

Definition nil {A : Type} : ptr A := None.

(** The types of the package that are declared outside the two files. *)
Class Types : Type := {
  (** [interface{}], the type of attribute values and of record ids *)
  Value : Type;
  (** [context.Context] *)
  ExecContext : Type;
  Relation : Type;
  ActiveRecord : Type;
  Reflection : Type;
  IntValidators : Type;
  StringValidators : Type;
  (** the errors that collaborators create *)
  ForeignError : Type;
}.

(** The [error] interface, closed over the error types these files create
    and the errors received from collaborators. *)
Inductive error `{Types} : Type :=
  | ErrAssociation (Message : string)
  | ErrUnknownAssociation (RecordName : string) (Assoc : string)
  | ErrUnknownAttribute (RecordName : string) (Attr : string)
  | errorString (msg : string)
  | ErrForeign (e : ForeignError).

(** [errors.New(msg)] and [errors.Errorf(format, ...)] once formatted. *)
Definition errors_New `{Types} (msg : string) : error := errorString msg.

(** [activesupport.Result[T]]: one of a value and an error. *)
Inductive Result `{Types} (A : Type) : Type :=
  | Ok (value : A)
  | Err (err : error).
Arguments Ok {_ _} _.
Arguments Err {_ _} _.

Definition Result_Ok `{Types} {A} (r : Result A) : option A :=
  match r with Ok v => Some v | Err _ => None end.

Definition Result_Err `{Types} {A} (r : Result A) : option error :=
  match r with Ok _ => None | Err e => Some e end.

Definition RecordResult `{Types} : Type := Result (ptr ActiveRecord).
Definition CollectionResult `{Types} : Type := Result (ptr Relation).

Definition OkRecord `{Types} (rec : ptr ActiveRecord) : RecordResult := Ok rec.
Definition ErrRecord `{Types} (err : error) : RecordResult := Err err.
Definition ErrCollection `{Types} (err : error) : CollectionResult := Err err.

(** What the language and its standard library leave to the runtime. *)
Class GoRuntime : Type := {
  (** the order in which [range] visits a map *)
  range : ∀ {A : Type}, gmap string A → list (string * A);
  range_perm : ∀ (A : Type) (m : gmap string A), range m ≡ₚ map_to_list m;
  (** [strings.ToLower] *)
  ToLower : string → string;
}.

(** Ranging over a map that may be nil: a nil map has no entries. *)
Definition range_nilable `{GoRuntime} {A : Type}
    (m : option (gmap string A)) : list (string * A) :=
  match m with
  | None => []
  | Some m => range m
  end.

(** A method of a collaborator whose call is observable. *)
Inductive Call `{Types} : Type :=
  | CallReflection (r : ptr Reflection) (name : string)
  | CallFind (rel : ptr Relation) (id : Value)
  | CallToA (rel : ptr Relation).

(** The methods of the collaborators. *)
Class Collaborators `{Types} : Type := {
  IntValidators_zero : IntValidators;
  IntValidators_Validate : IntValidators → Value → option error;
  StringValidators_Validate : StringValidators → Value → option error;
  (** the method [Reflection(name)] of [Reflection], which returns a
      relation and an error *)
  Reflection_Reflection : ptr Reflection → string → ptr Relation * option error;
  Relation_Name : ptr Relation → string;
  Relation_WithContext : ptr Relation → ExecContext → ptr Relation;
  Relation_Where : ptr Relation → string → Value → ptr Relation;
  Relation_Limit : ptr Relation → Z → ptr Relation;
  Relation_Find : ptr Relation → Value → RecordResult;
  (** the method [ToA()] of [Relation], which returns the records and an
      error *)
  Relation_ToA : ptr Relation → list (ptr ActiveRecord) * option error;
  ActiveRecord_Name : ptr ActiveRecord → string;
  ActiveRecord_ID : ptr ActiveRecord → Value;
  ActiveRecord_Attribute : ptr ActiveRecord → string → Value;
  ActiveRecord_Context : ptr ActiveRecord → ExecContext;
  (** [fmt.Sprintf("%s", records)] for [records []*ActiveRecord] *)
  Sprint_records : list (ptr ActiveRecord) → string;
}.

(** ** Computations that call collaborators

    A state monad over the log of calls made so far. *)

Definition M `{Types} (A : Type) : Type := list Call → A * list Call.

#[global] Instance M_ret `{Types} : MRet M := λ A (a : A) log, (a, log).

#[global] Instance M_bind `{Types} : MBind M :=
  λ A B (f : A → M B) (m : M A) log, let '(a, log') := m log in f a log'.

Definition call `{Types} {A : Type} (c : Call) (a : A) : M A :=
  λ log, (a, log ++ [c]).

Definition reflect `{Types} `{!Collaborators}
    (r : ptr Reflection) (name : string) : M (ptr Relation * option error) :=
  call (CallReflection r name) (Reflection_Reflection r name).

Definition find `{Types} `{!Collaborators}
    (rel : ptr Relation) (id : Value) : M RecordResult :=
  call (CallFind rel id) (Relation_Find rel id).

Definition toA `{Types} `{!Collaborators}
    (rel : ptr Relation) : M (list (ptr ActiveRecord) * option error) :=
  call (CallToA rel) (Relation_ToA rel).

(** [sort.StringSlice(names).Sort()]: the slice in increasing order of
    its strings, compared byte by byte.  The names sorted in these files
    are the keys of a map, so no two are equal and the sorted slice does
    not depend on the algorithm. *)
Definition sort_Strings (names : list string) : list string :=
  merge_sort (λ s1 s2, String.leb s1 s2) names.

(** ** attibute.go *)

Definition Int : string := "int".
Definition String : string := "string".

(** default name of the primary key. *)
Definition defaultPrimaryKeyName : string := "id".

(** The implementations of the [Attribute] interface: [IntAttr],
    [StringAttr], and [PrimaryKey], which embeds an [Attribute]. *)
Inductive Attribute `{Types} : Type :=
  | IntAttr (Name : string) (Validates : IntValidators)
  | StringAttr (Name : string) (Validates : StringValidators)
  | PrimaryKey (Attribute : Attribute).

Section attribute_methods.
Context `{Types} `{!Collaborators}.

Fixpoint AttributeName (a : Attribute) : string :=
  match a with
  | IntAttr Name _ => Name
  | StringAttr Name _ => Name
  | PrimaryKey a => AttributeName a
  end.

Fixpoint CastType (a : Attribute) : string :=
  match a with
  | IntAttr _ _ => Int
  | StringAttr _ _ => String
  | PrimaryKey a => CastType a
  end.

Fixpoint Validate (a : Attribute) (value : Value) : option error :=
  match a with
  | IntAttr _ Validates => IntValidators_Validate Validates value
  | StringAttr _ Validates => StringValidators_Validate Validates value
  | PrimaryKey a => Validate a value
  end.

(** [pk, ok := attr.(primaryKey); ok && pk.PrimaryKey()]: only
    [PrimaryKey] has the method, and it always returns true. *)
Definition is_primaryKey (attr : Attribute) : bool :=
  match attr with
  | PrimaryKey _ => true
  | _ => false
  end.
End attribute_methods.

Module attributes.
Section defs.
Context `{Types} `{!Collaborators} `{!GoRuntime}.

(** attributes of the ActiveRecord. *)
Record t : Type := mk {
  recordName : string;
  primaryKey : option Attribute;
  keys : gmap string Attribute;
  values : option (gmap string Value);
}.

Definition multiplePrimaryKeys : error :=
  errors_New "multiple primary keys are not supported".

(** [fmt] renders [%q] of ["id"] as the name between double quotes. *)
Definition notPrimaryKey : error :=
  let quote := String.String (ascii_of_nat 34) EmptyString in
  errors_New (quote +:+ defaultPrimaryKeyName +:+ quote
              +:+ " is an attribute, but not a primary key").

(** The first loop of [newAttributes]: [pk] is [recordAttrs.primaryKey]. *)
Fixpoint scanPrimaryKey (entries : list (string * Attribute))
    (pk : option Attribute) : Result (option Attribute) :=
  match entries with
  | [] => Ok pk
  | (_, attr) :: entries =>
      if is_primaryKey attr then
        match pk with
        | Some _ => Err multiplePrimaryKeys
        | None => scanPrimaryKey entries (Some attr)
        end
      else scanPrimaryKey entries pk
  end.

(** The last loop of [newAttributes]. *)
Fixpoint checkValues (recordName : string) (keys : gmap string Attribute)
    (entries : list (string * Value)) : option error :=
  match entries with
  | [] => None
  | (attrName, _) :: entries =>
      match keys !! attrName with
      | None => Some (ErrUnknownAttribute recordName attrName)
      | Some _ => checkValues recordName keys entries
      end
  end.

(** [newAttributes] writes the synthesized primary key into the map it
    was given, which its caller still holds: the first component of the
    result is that map when the function returns.  The schema map is an
    allocated map (the function stores into it unguarded). *)
Definition newAttributes (recordName : string)
    (attrs : gmap string Attribute) (values : option (gmap string Value))
    : gmap string Attribute * Result t :=
  match scanPrimaryKey (range attrs) None with
  | Err err => (attrs, Err err)
  | Ok primaryKey =>
      match attrs !! defaultPrimaryKeyName with
      | Some _ => (attrs, Err notPrimaryKey)
      | None =>
          let '(primaryKey, keys) :=
            match primaryKey with
            | None =>
                let pk :=
                  PrimaryKey (IntAttr defaultPrimaryKeyName IntValidators_zero) in
                (Some pk, <[defaultPrimaryKeyName := pk]> attrs)
            | Some _ => (primaryKey, attrs)
            end in
          match checkValues recordName keys (range_nilable values) with
          | Some err => (keys, Err err)
          | None => (keys, Ok (mk recordName primaryKey keys values))
          end
      end
  end.

(** [a.primaryKey.AttributeName()]; the registry that [newAttributes]
    returns always has a primary key. *)
Definition PrimaryKeyName (a : t) : option string :=
  AttributeName <$> primaryKey a.

Definition HasAttribute (a : t) (attrName : string) : bool :=
  bool_decide (is_Some (keys a !! attrName)).

(** The method has a pointer receiver: the first component is the
    registry after the call. *)
Definition AssignAttribute (a : t) (attrName : string) (val : Value)
    : t * option error :=
  match keys a !! attrName with
  | None => (a, Some (ErrUnknownAttribute (recordName a) attrName))
  | Some attr =>
      match Validate attr val with
      | Some err => (a, Some err)
      | None =>
          let values :=
            match values a with
            | None => ∅
            | Some values => values
            end in
          (mk (recordName a) (primaryKey a) (keys a)
              (Some (<[attrName := val]> values)), None)
      end
  end.

(** A lookup in a map that may be nil. *)
Definition lookup_nilable {A : Type} (m : option (gmap string A))
    (k : string) : option A :=
  m ≫= λ m, m !! k.

(** [AccessAttribute] returns [nil] (here [None]) for undeclared names
    and for names without a value. *)
Definition AccessAttribute (a : t) (attrName : string) : option Value :=
  if HasAttribute a attrName then lookup_nilable (values a) attrName
  else None.

(** ID returns the primary key column's value: [Some None] when the value
    map has no entry under the name of the primary key.  The outer [None]
    is the panic of the method call on a nil [primaryKey]. *)
Definition ID (a : t) : option (option Value) :=
  pk ← primaryKey a; Some (lookup_nilable (values a) (AttributeName pk)).

(** AttributeNames return an array of names for the attributes available
    on this object. *)
Definition AttributeNames (a : t) : list string :=
  sort_Strings ((range (keys a)).*1).
End defs.
End attributes.

(** ** association.go *)

Module BelongsTo.
Section defs.
Context `{Types} `{!Collaborators}.

Record t : Type := mk {
  owner : ptr Relation;
  reflection : ptr Reflection;
  targetName : string;
  foreignKey : string;
}.

Definition AssociationOwner (a : t) : ptr Relation := owner a.

Definition AssociationName (a : t) : string := targetName a.

(** ForeignKey sets the foreign key used for the association. *)
Definition ForeignKey (a : t) (fk : string) : t :=
  mk (owner a) (reflection a) (targetName a) fk.

Definition AssociationForeignKey (a : t) : string :=
  if decide (foreignKey a ≠ "") then foreignKey a
  else targetName a +:+ "_" +:+ defaultPrimaryKeyName.

(** AccessAssociation returns a record of the target. *)
Definition AccessAssociation (a : t) (owner : ptr ActiveRecord)
    : M RecordResult :=
  '(targets, err) ← reflect (reflection a) (targetName a);
  match err with
  | Some err => mret (ErrRecord err)
  | None =>
      let targetId := ActiveRecord_Attribute owner (AssociationForeignKey a) in
      find (Relation_WithContext targets (ActiveRecord_Context owner)) targetId
  end.
End defs.
End BelongsTo.

Module HasMany.
Section defs.
Context `{Types} `{!Collaborators} `{!GoRuntime}.

Record t : Type := mk {
  owner : ptr Relation;
  reflection : ptr Reflection;
  targetName : string;
  foreignKey : string;
}.

Definition AssociationName (a : t) : string := targetName a.

Definition AssociationForeignKey (a : t) : string :=
  if decide (foreignKey a ≠ "") then foreignKey a
  else ToLower (Relation_Name (owner a)) +:+ "_" +:+ defaultPrimaryKeyName.

(** AccessCollection returns a collection of the target records. *)
Definition AccessCollection (a : t) (owner : ptr ActiveRecord)
    : M CollectionResult :=
  '(targets, err) ← reflect (reflection a) (targetName a);
  match err with
  | Some err => mret (Err err)
  | None =>
      let targets := Relation_WithContext targets (ActiveRecord_Context owner) in
      let targets :=
        Relation_Where targets (AssociationForeignKey a) (ActiveRecord_ID owner) in
      mret (Ok targets)
  end.
End defs.
End HasMany.

Module HasOne.
Section defs.
Context `{Types} `{!Collaborators}.

Record t : Type := mk {
  owner : ptr Relation;
  reflection : ptr Reflection;
  targetName : string;
  foreignKey : string;
}.

Definition AssociationOwner (a : t) : ptr Relation := owner a.

Definition AssociationName (a : t) : string :=
  if decide (foreignKey a ≠ "") then foreignKey a
  else targetName a +:+ "_" +:+ defaultPrimaryKeyName.

Definition AssociationForeignKey (a : t) : string := defaultPrimaryKeyName.

Definition hasMany (records : list (ptr ActiveRecord)) : error :=
  ErrAssociation ("declared 'has_one' association, but has many: "
                  +:+ Sprint_records records).

Definition AccessAssociation (a : t) (owner : ptr ActiveRecord)
    : M RecordResult :=
  '(targets, err) ← reflect (reflection a) (targetName a);
  match err with
  | Some err => mret (ErrRecord err)
  | None =>
      let targets := Relation_WithContext targets (ActiveRecord_Context owner) in
      let targets :=
        Relation_Where targets (AssociationForeignKey a) (ActiveRecord_ID owner) in
      '(records, err) ← toA (Relation_Limit targets 2);
      match err with
      | Some err => mret (ErrRecord err)
      | None =>
          match records with
          | [] => mret (OkRecord nil)
          | [record] => mret (OkRecord record)
          | _ => mret (ErrRecord (hasMany records))
          end
      end
  end.
End defs.
End HasOne.

(** The implementations of the [Association] interface. *)
Inductive Association `{Types} : Type :=
  | BelongsTo (a : BelongsTo.t)
  | HasMany (a : HasMany.t)
  | HasOne (a : HasOne.t).

Section association_methods.
Context `{Types} `{!Collaborators} `{!GoRuntime}.

Definition AssociationName (assoc : Association) : string :=
  match assoc with
  | BelongsTo a => BelongsTo.AssociationName a
  | HasMany a => HasMany.AssociationName a
  | HasOne a => HasOne.AssociationName a
  end.

Definition AssociationForeignKey (assoc : Association) : string :=
  match assoc with
  | BelongsTo a => BelongsTo.AssociationForeignKey a
  | HasMany a => HasMany.AssociationForeignKey a
  | HasOne a => HasOne.AssociationForeignKey a
  end.

(** [assoc.(SingularAssociation)]: the types with [AccessAssociation]. *)
Definition asSingular (assoc : Association)
    : option (ptr ActiveRecord → M RecordResult) :=
  match assoc with
  | BelongsTo a => Some (BelongsTo.AccessAssociation a)
  | HasOne a => Some (HasOne.AccessAssociation a)
  | HasMany _ => None
  end.

(** [assoc.(CollectionAssociation)]: the types with [AccessCollection]. *)
Definition asCollection (assoc : Association)
    : option (ptr ActiveRecord → M CollectionResult) :=
  match assoc with
  | HasMany a => Some (HasMany.AccessCollection a)
  | BelongsTo _ | HasOne _ => None
  end.
End association_methods.

Record AssociationReflection `{Types} : Type := mkAssociationReflection {
  AssociationReflection_Relation : ptr Relation;
  AssociationReflection_Association : Association;
}.
Arguments mkAssociationReflection {_} _ _.

Module associations.
Section defs.
Context `{Types} `{!Collaborators} `{!GoRuntime}.

Record t : Type := mk {
  recordName : string;
  rec : ptr ActiveRecord;
  reflection : ptr Reflection;
  keys : gmap string Association;
  values : gmap string (ptr ActiveRecord);
}.

Definition newAssociations (recordName : string)
    (assocs : gmap string Association) (reflection : ptr Reflection) : t :=
  mk recordName nil reflection assocs ∅.

Definition delegateAccessors (a : t) (rec : ptr ActiveRecord) : t :=
  mk (recordName a) rec (reflection a) (keys a) (values a).

(** [copy] duplicates the two maps; the record that the accessors are
    delegated to is not carried over. *)
Definition copy (a : t) : t :=
  mk (recordName a) nil (reflection a) (keys a) (values a).

Definition HasAssociation (a : t) (assocName : string) : bool :=
  bool_decide (is_Some (keys a !! assocName)).

Definition HasAssociations (a : t) (assocNames : list string) : bool :=
  forallb (HasAssociation a) assocNames.

Definition get (a : t) (assocName : string) : option Association :=
  if HasAssociation a assocName then keys a !! assocName else None.

(** ReflectOnAssociation returns AssociationReflection for the specified
    association. *)
Definition ReflectOnAssociation (a : t) (assocName : string)
    : M (ptr AssociationReflection) :=
  match get a assocName with
  | None => mret nil
  | Some assoc =>
      '(rel, err) ← reflect (reflection a) (AssociationName assoc);
      match err with
      | Some _ => mret nil
      | None => mret (Some (mkAssociationReflection rel assoc))
      end
  end.

(** The loop of [ReflectOnAllAssociations] over the entries of [a.keys]. *)
Fixpoint reflectOnEach (reflection : ptr Reflection)
    (entries : list (string * Association))
    (arefs : list AssociationReflection) : M (list AssociationReflection) :=
  match entries with
  | [] => mret arefs
  | (_, assoc) :: entries =>
      '(rel, _) ← reflect reflection (AssociationName assoc);
      match rel with
      | None => reflectOnEach reflection entries arefs
      | Some _ =>
          reflectOnEach reflection entries
            (arefs ++ [mkAssociationReflection rel assoc])
      end
  end.

(** ReflectOnAllAssociations returns an array of AssociationReflection
    types for all associations in the Relation. *)
Definition ReflectOnAllAssociations (a : t) : M (list AssociationReflection) :=
  reflectOnEach (reflection a) (range (keys a)) [].

Definition AssociationNames (a : t) : list string :=
  sort_Strings ((range (keys a)).*1).

Definition isNotSingular (assocName : string) : error :=
  ErrAssociation ("'" +:+ assocName +:+ "' is not a singular association").

Definition isNotCollection (collName : string) : error :=
  ErrAssociation ("'" +:+ collName +:+ "' is not a collection association").

Definition Association (a : t) (assocName : string) : M RecordResult :=
  match get a assocName with
  | None =>
      mret (ErrRecord
              (ErrUnknownAssociation (ActiveRecord_Name (rec a)) assocName))
  | Some assoc =>
      match values a !! assocName with
      | Some rec => mret (OkRecord rec)
      | None =>
          match asSingular assoc with
          | None => mret (ErrRecord (isNotSingular assocName))
          | Some AccessAssociation => AccessAssociation (rec a)
          end
      end
  end.

Definition AccessAssociation (a : t) (assocName : string)
    : M (ptr ActiveRecord * option error) :=
  assoc ← Association a assocName;
  mret (default nil (Result_Ok assoc), Result_Err assoc).

Definition Collection (a : t) (collName : string) : M CollectionResult :=
  match get a collName with
  | None =>
      mret (ErrCollection
              (ErrUnknownAssociation (ActiveRecord_Name (rec a)) collName))
  | Some assoc =>
      match asCollection assoc with
      | None => mret (ErrCollection (isNotCollection collName))
      | Some AccessCollection => AccessCollection (rec a)
      end
  end.

Definition AccessCollection (a : t) (collName : string)
    : M (ptr Relation * option error) :=
  collection ← Collection a collName;
  mret (default nil (Result_Ok collection), Result_Err collection).
End defs.
End associations.

(** ** A small in-memory instance of the collaborators

    Values are integers; a relation is a table together with the
    conditions, the limit and the context put on it so far; [ToA] and [Find]
    run the query on the rows of the table, and the table named offline
    cannot be read.  The definitions above are run on this instance to
    evaluate them on concrete inputs. *)

Module Memory.
Record Row : Type := mkRow {
  kind : string;
  fields : list (string * Z);
}.

Record Query : Type := mkQuery {
  table : string;
  rows : list Row;
  ctx : nat;
  conds : list (string * Z);
  limit : option Z;
}.

(** The registered record kinds, each with its rows. *)
Definition Schema : Type := list (string * list Row).

#[local] Instance types : Types := {|
  Value := Z;
  ExecContext := nat;
  Relation := Query;
  ActiveRecord := Row;
  Reflection := Schema;
  IntValidators := option Z;
  StringValidators := unit;
  ForeignError := string;
|}.

Definition field (name : string) (row : ptr Row) : Z :=
  match row with
  | None => 0
  | Some row =>
      match list_find (λ kv, bool_decide (kv.1 = name)) (fields row) with
      | Some (_, kv) => kv.2
      | None => 0
      end
  end.

Definition lookupKind (schema : ptr Schema) (name : string)
    : ptr Query * option error :=
  match schema with
  | None => (None, Some (ErrForeign "no schema"))
  | Some schema =>
      match list_find (λ kv, bool_decide (kv.1 = name)) schema with
      | Some (_, kv) => (Some (mkQuery name kv.2 0 [] None), None)
      | None => (None, Some (ErrForeign ("unknown relation " +:+ name)))
      end
  end.

Definition matching (q : Query) : list Row :=
  filter (λ row, forallb (λ c : string * Z,
                            bool_decide (field c.1 (Some row) = c.2))
                          (conds q) = true)
         (rows q).

Definition run (q : ptr Query) : list (ptr Row) * option error :=
  match q with
  | None => ([], Some (ErrForeign "nil relation"))
  | Some q =>
      if bool_decide (table q = "offline") then
        ([], Some (ErrForeign "storage is offline"))
      else
        let found := matching q in
        (Some <$> match limit q with
                  | None => found
                  | Some n => take (Z.to_nat n) found
                  end, None)
  end.

Definition findById (q : ptr Query) (id : Z) : RecordResult :=
  match q with
  | None => Err (ErrForeign "nil relation")
  | Some q =>
      match list_find (λ row, bool_decide (field "id" (Some row) = id))
                      (matching q) with
      | Some (_, row) => Ok (Some row)
      | None => Err (ErrForeign "record not found")
      end
  end.

Definition rowKind (row : ptr Row) : string := from_option kind "" row.

(** An upper bound as the only integer validation. *)
Definition atMost (bound : option Z) (v : Z) : option error :=
  match bound with
  | Some b => if bool_decide (v ≤ b)%Z then None
              else Some (ErrForeign "is too large")
  | None => None
  end.

#[local] Instance collaborators : Collaborators := {|
  IntValidators_zero := None;
  IntValidators_Validate := atMost;
  StringValidators_Validate := λ _ _, None;
  Reflection_Reflection := lookupKind;
  Relation_Name := λ q, from_option table "" q;
  Relation_WithContext := λ q c,
    (λ q, mkQuery (table q) (rows q) c (conds q) (limit q)) <$> q;
  Relation_Where := λ q col v,
    (λ q, mkQuery (table q) (rows q) (ctx q) (conds q ++ [(col, v)]) (limit q))
      <$> q;
  Relation_Limit := λ q n,
    (λ q, mkQuery (table q) (rows q) (ctx q) (conds q) (Some n)) <$> q;
  Relation_Find := findById;
  Relation_ToA := run;
  ActiveRecord_Name := rowKind;
  ActiveRecord_ID := field "id";
  ActiveRecord_Attribute := λ row name, field name row;
  ActiveRecord_Context := λ _, 7%nat;
  Sprint_records := λ records,
    String.concat " " (rowKind <$> records);
|}.

(** [strings.ToLower] on the letters A to Z; the other bytes are kept. *)
Definition lowerByte (c : ascii) : ascii :=
  let n := nat_of_ascii c in
  if bool_decide (65 ≤ n ≤ 90)%nat then ascii_of_nat (n + 32) else c.

Fixpoint lower (s : string) : string :=
  match s with
  | EmptyString => EmptyString
  | String.String c s => String.String (lowerByte c) (lower s)
  end.

#[local] Instance runtime : GoRuntime := {|
  range := λ A, map_to_list;
  range_perm := λ A m, reflexivity (map_to_list m);
  ToLower := lower;
|}.
End Memory.

(** ** Vocabulary of the statements *)

(** The order of [sort.StringSlice]: byte by byte, a proper prefix first. *)
Definition byBytes : relation string := λ s1 s2, String.leb s1 s2.

Section vocabulary.
Context `{Types}.

(** The attributes of a schema that are marked as primary key. *)
Definition primaryKeys (attrs : gmap string Attribute)
    : list (string * Attribute) :=
  filter (λ kv, is_primaryKey kv.2) (map_to_list attrs).

(** The entries of a nilable map. *)
Definition entries {A : Type} (m : option (gmap string A))
    : list (string * A) :=
  from_option map_to_list [] m.

(** Every initial value is the value of a declared attribute. *)
Definition allDeclared (keys : gmap string Attribute)
    (values : option (gmap string Value)) : Prop :=
  Forall (λ kv, is_Some (keys !! kv.1)) (entries values).

(** The calls that execute a query. *)
Definition isTerminal (c : Call) : bool :=
  match c with
  | CallReflection _ _ => false
  | CallFind _ _ | CallToA _ => true
  end.

Definition terminalCalls (log : list Call) : list Call :=
  filter (λ c, isTerminal c) log.

(** The relation that [HasMany] returns and that [HasOne] limits and
    reads: the target within the context of the owner, narrowed to the
    rows whose column [column] is the id of the owner. *)
Definition narrowed `{!Collaborators} (targets : ptr Relation)
    (column : string) (owner : ptr ActiveRecord) : ptr Relation :=
  Relation_Where (Relation_WithContext targets (ActiveRecord_Context owner))
    column (ActiveRecord_ID owner).

(** The lookup that the registry makes for a declared association. *)
Definition lookupCall `{!Collaborators} `{!GoRuntime}
    (r : ptr Reflection) (assoc : Association) : Call :=
  CallReflection r (AssociationName assoc).

(** The reflection of a declared association, when its lookup returns a
    relation. *)
Definition reflected `{!Collaborators} `{!GoRuntime}
    (r : ptr Reflection) (assoc : Association)
    : option AssociationReflection :=
  match (Reflection_Reflection r (AssociationName assoc)).1 with
  | None => None
  | Some rel => Some (mkAssociationReflection (Some rel) assoc)
  end.

(** The registries that the functions of association.go build: a new
    registry, and what [delegateAccessors] and [copy] make of a registry. *)
Inductive built `{!Collaborators} `{!GoRuntime} : associations.t → Prop :=
  | built_new recordName assocs reflection :
      built (associations.newAssociations recordName assocs reflection)
  | built_delegate a rec :
      built a → built (associations.delegateAccessors a rec)
  | built_copy a :
      built a → built (associations.copy a).

(** The primary key that [newAttributes] synthesizes. *)
Definition defaultPrimaryKey `{!Collaborators} : Attribute :=
  PrimaryKey (IntAttr defaultPrimaryKeyName IntValidators_zero).
End vocabulary.

(** ** Concrete inputs, on the in-memory collaborators *)

Module Examples.
Section inputs.
Import Memory.
#[local] Existing Instances types collaborators runtime.

Definition idKey : Attribute := PrimaryKey (IntAttr "id" None).
Definition uidKey : Attribute := PrimaryKey (IntAttr "uid" None).
Definition plainId : Attribute := IntAttr "id" None.
Definition age : Attribute := IntAttr "age" (Some 150%Z).
Definition name : Attribute := StringAttr "name" ().

(** one primary key, itself named id *)
Definition schemaIdKey : gmap string Attribute := {[ "id" := idKey ]}.
(** an attribute named id that is not a primary key, and no primary key *)
Definition schemaPlainId : gmap string Attribute :=
  {[ "id" := plainId; "name" := name ]}.
(** the same beside two primary keys *)
Definition schemaCrowded : gmap string Attribute :=
  {[ "id" := plainId; "uid" := uidKey; "key" := PrimaryKey name ]}.
(** no primary key and no attribute named id *)
Definition schemaPlain : gmap string Attribute :=
  {[ "age" := age; "name" := name ]}.
(** one primary key, not named id *)
Definition schemaUid : gmap string Attribute :=
  {[ "uid" := uidKey; "age" := age ]}.
(** two primary keys *)
Definition schemaTwoKeys : gmap string Attribute :=
  {[ "uid" := uidKey; "key" := PrimaryKey name ]}.

Definition person : attributes.t :=
  attributes.mk "person" (Some defaultPrimaryKey)
    (<[ "id" := defaultPrimaryKey ]> schemaPlain) None.

(** Three targets; two of them share the id 2. *)
Definition target1 : Row := mkRow "target" [("id", 1%Z); ("owner_id", 1%Z)].
Definition target2 : Row := mkRow "target" [("id", 2%Z); ("owner_id", 1%Z)].
Definition target2' : Row := mkRow "target" [("id", 2%Z); ("owner_id", 3%Z)].
Definition targets : list Row := [target1; target2; target2'].

Definition ownerOf (id : Z) : ptr Row :=
  Some (mkRow "owner" [("id", id); ("Target_id", 2%Z)]).

(** The kinds owner and target are registered; no kind is registered
    under a name of the form of a foreign key. *)
Definition db : ptr Schema :=
  Some [("owner", [mkRow "owner" [("id", 1%Z); ("Target_id", 2%Z)]]);
        ("target", targets); ("offline", [])].

Definition Owners : ptr Query := Some (mkQuery "Owner" [] 0 [] None).

Definition belongsTo : BelongsTo.t := BelongsTo.mk Owners db "Target" "".
Definition belongsToKeyed : BelongsTo.t :=
  BelongsTo.mk Owners db "target" "parent".
Definition hasMany : HasMany.t := HasMany.mk Owners db "target" "".
Definition hasManyKeyed : HasMany.t :=
  HasMany.mk Owners db "target" "holder".
Definition hasManyLost : HasMany.t := HasMany.mk Owners db "widgets" "".
Definition hasOne : HasOne.t := HasOne.mk Owners db "target" "".
Definition hasOneKeyed : HasOne.t := HasOne.mk Owners db "target" "owner_id".
Definition hasOneLost : HasOne.t := HasOne.mk Owners db "widget" "".
Definition hasOneOffline : HasOne.t := HasOne.mk Owners db "offline" "".

(** The query that [hasOne] reads for the owner with the given id. *)
Definition hasOneQuery (id : Z) : ptr Query :=
  Some (mkQuery "target" targets 7 [("id", id)] (Some 2%Z)).

Definition declared : gmap string Association :=
  {[ "parent" := BelongsTo belongsToKeyed;
     "targets" := HasMany hasMany;
     "target" := HasOne hasOne ]}.

(** The registry of the owner with id 1, nothing cached. *)
Definition registry : associations.t :=
  associations.delegateAccessors
    (associations.newAssociations "owner" declared db) (ownerOf 1).

(** The same registry with records cached under two of the names. *)
Definition registryCached : associations.t :=
  associations.mk "owner" (ownerOf 1) db declared
    {[ "target" := Some target2'; "targets" := Some target1 ]}.

(** An owner whose attribute parent is the id of [target1]. *)
Definition child : ptr Row :=
  Some (mkRow "owner" [("id", 4%Z); ("parent", 1%Z)]).

(** The relation of the targets, as the lookup returns it (context 0) and
    within the context of an owner. *)
Definition targetsWithin (ctx : nat) : ptr Query :=
  Some (mkQuery "target" targets ctx [] None).

(** The registry built from [schemaPlain] and one initial value. *)
Definition personValues : option (gmap string Z) := Some {[ "age" := 30%Z ]}.
Definition personBuilt : attributes.t :=
  attributes.mk "person" (Some defaultPrimaryKey)
    (<[ "id" := defaultPrimaryKey ]> schemaPlain) personValues.
End inputs.
End Examples.

(** * Properties *)

(** Unfolds the operations of [M], leaving functions of the log. *)
Ltac run_M :=
  unfold reflect, find, toA, call, mbind, M_bind, mret, M_ret.

(** ** The attribute registry *)

Section attributes_properties.
Context `{Types} `{!Collaborators} `{!GoRuntime}.
Implicit Types (attrs : gmap string Attribute) (pk : option Attribute).

Lemma range_elem_of {A : Type} (m : gmap string A) k v :
  (k, v) ∈ range m ↔ m !! k = Some v.
Proof. by rewrite (range_perm A m), elem_of_map_to_list. Qed.

(** The outcome of the first loop is fixed by the marked entries it
    meets, whatever their order. *)
Lemma scanPrimaryKey_marked (l : list (string * Attribute)) pk :
  attributes.scanPrimaryKey l pk =
    match filter (λ kv, is_primaryKey kv.2) l, pk with
    | [], _ => Ok pk
    | [(_, attr)], None => Ok (Some attr)
    | _, _ => Err attributes.multiplePrimaryKeys
    end.
Proof.
  revert pk. induction l as [|[k attr] l IH]; intros pk; [done|].
  simpl. destruct (is_primaryKey attr) eqn:Hattr.
  - rewrite filter_cons_True by (simpl; rewrite Hattr; exact I).
    destruct pk as [pk|].
    + by destruct (filter _ l).
    + rewrite IH. by destruct (filter _ l) as [|[??] [|??]].
  - rewrite filter_cons_False by (simpl; rewrite Hattr; exact id). apply IH.
Qed.

Lemma marked_range attrs :
  filter (λ kv, is_primaryKey kv.2) (range attrs) ≡ₚ primaryKeys attrs.
Proof. unfold primaryKeys. by rewrite (range_perm _ attrs). Qed.

Lemma scanPrimaryKey_none attrs :
  primaryKeys attrs = [] →
  attributes.scanPrimaryKey (range attrs) None = Ok None.
Proof.
  intros Hnone. rewrite scanPrimaryKey_marked.
  pose proof (marked_range attrs) as Hperm. rewrite Hnone in Hperm.
  by apply Permutation_nil_r in Hperm as ->.
Qed.

Lemma scanPrimaryKey_one attrs k a :
  primaryKeys attrs = [(k, a)] →
  attributes.scanPrimaryKey (range attrs) None = Ok (Some a).
Proof.
  intros Hone. rewrite scanPrimaryKey_marked.
  pose proof (marked_range attrs) as Hperm. rewrite Hone in Hperm.
  by apply Permutation_singleton_r in Hperm as ->.
Qed.

Lemma scanPrimaryKey_several attrs :
  (2 ≤ length (primaryKeys attrs))%nat →
  attributes.scanPrimaryKey (range attrs) None
  = Err attributes.multiplePrimaryKeys.
Proof.
  intros Hlen. rewrite scanPrimaryKey_marked.
  rewrite <-(Permutation_length (marked_range attrs)) in Hlen.
  destruct (filter _ (range attrs)) as [|[??] [|??]]; simpl in Hlen;
    [lia..|done].
Qed.

Lemma scanPrimaryKey_at_most_one attrs :
  (length (primaryKeys attrs) ≤ 1)%nat →
  ∃ pk, attributes.scanPrimaryKey (range attrs) None = Ok pk.
Proof.
  intros Hlen. destruct (primaryKeys attrs) as [|[k a] [|??]] eqn:Hkeys.
  - exists None. by apply scanPrimaryKey_none.
  - exists (Some a). by eapply scanPrimaryKey_one.
  - simpl in Hlen. lia.
Qed.

(** The last loop passes exactly when every value is declared. *)
Lemma checkValues_None recordName attrs (l : list (string * Value)) :
  attributes.checkValues recordName attrs l = None
  ↔ Forall (λ kv, is_Some (attrs !! kv.1)) l.
Proof.
  induction l as [|[k v] l IH]; simpl.
  - split; [constructor|done].
  - rewrite Forall_cons. simpl. destruct (attrs !! k) eqn:Hk.
    + rewrite IH. split; [eauto|tauto].
    + split; [done|]. intros [[? ?] _]. done.
Qed.

Lemma checkValues_Some recordName attrs (l : list (string * Value)) err :
  attributes.checkValues recordName attrs l = Some err →
  ∃ attrName, attrName ∈ l.*1 ∧ attrs !! attrName = None
              ∧ err = ErrUnknownAttribute recordName attrName.
Proof.
  induction l as [|[k v] l IH]; simpl; [done|].
  destruct (attrs !! k) eqn:Hk.
  - intros (attrName & ? & ? & ?)%IH. exists attrName.
    split; [by right|done].
  - intros [= <-]. exists k. split; [by left|done].
Qed.

Lemma allDeclared_range recordName attrs values :
  allDeclared attrs values →
  attributes.checkValues recordName attrs (range_nilable values) = None.
Proof.
  rewrite checkValues_None. unfold allDeclared, entries.
  destruct values as [values|]; simpl; [|done].
  by rewrite (range_perm _ values).
Qed.

Lemma scanPrimaryKey_Err (l : list (string * Attribute)) pk err :
  attributes.scanPrimaryKey l pk = Err err →
  err = attributes.multiplePrimaryKeys.
Proof.
  rewrite scanPrimaryKey_marked.
  destruct (filter _ l) as [|[??] [|??]], pk; congruence.
Qed.

Lemma multiplePrimaryKeys_neq_notPrimaryKey :
  attributes.multiplePrimaryKeys ≠ attributes.notPrimaryKey.
Proof. discriminate. Qed.

(** C5, as amended.  A schema without a marked attribute and without an
    attribute named id receives exactly one more attribute, the integer
    attribute named id, which is the primary key of the registry returned
    when every initial value is declared.  A schema with one marked
    attribute is left as it is, and a registry that is returned has that
    attribute as its primary key.  A schema with two or more marked
    attributes is refused with the error of multiple primary keys. *)
Theorem newAttributes_primary_key recordName attrs values :
  (primaryKeys attrs = [] → attrs !! defaultPrimaryKeyName = None →
     let keys := <[defaultPrimaryKeyName := defaultPrimaryKey]> attrs in
     CastType defaultPrimaryKey = Int
     ∧ AttributeName defaultPrimaryKey = defaultPrimaryKeyName
     ∧ size keys = S (size attrs)
     ∧ (attributes.newAttributes recordName attrs values).1 = keys
     ∧ (allDeclared keys values →
        (attributes.newAttributes recordName attrs values).2
        = Ok (attributes.mk recordName (Some defaultPrimaryKey) keys values)))
  ∧ (∀ k a, primaryKeys attrs = [(k, a)] →
       (attributes.newAttributes recordName attrs values).1 = attrs
       ∧ (∀ r, (attributes.newAttributes recordName attrs values).2 = Ok r →
               attributes.primaryKey r = Some a ∧ attributes.keys r = attrs)
       ∧ (attrs !! defaultPrimaryKeyName = None → allDeclared attrs values →
          (attributes.newAttributes recordName attrs values).2
          = Ok (attributes.mk recordName (Some a) attrs values)))
  ∧ ((2 ≤ length (primaryKeys attrs))%nat →
       attributes.newAttributes recordName attrs values
       = (attrs, Err attributes.multiplePrimaryKeys)).
Proof.
  unfold attributes.newAttributes. split_and!.
  - intros Hnone Hid. rewrite (scanPrimaryKey_none _ Hnone), Hid.
    fold defaultPrimaryKey. split_and!; [done..| | |].
    + by apply map_size_insert_None.
    + by destruct (attributes.checkValues _ _ _).
    + intros Hvalues. by rewrite (allDeclared_range _ _ _ Hvalues).
  - intros k a Hone. rewrite (scanPrimaryKey_one _ _ _ Hone).
    destruct (attrs !! defaultPrimaryKeyName) eqn:Hid.
    + by split_and!.
    + destruct (attributes.checkValues _ _ _) eqn:Hcheck; simpl.
      * split_and!; [done..|]. intros _ Hvalues.
        by rewrite (allDeclared_range _ _ _ Hvalues) in Hcheck.
      * split_and!; [done| |done]. by intros r [= <-].
  - intros Hseveral. by rewrite (scanPrimaryKey_several _ Hseveral).
Qed.

(** C3, as amended.  When at most one attribute is marked as primary key,
    a schema with an attribute named id that is not marked is refused
    with the error of the reserved name; and a schema without an
    attribute named id is never refused with that error. *)
Theorem newAttributes_reserved_name recordName attrs values :
  (∀ a, attrs !! defaultPrimaryKeyName = Some a →
        is_primaryKey a = false →
        (length (primaryKeys attrs) ≤ 1)%nat →
        attributes.newAttributes recordName attrs values
        = (attrs, Err attributes.notPrimaryKey))
  ∧ (attrs !! defaultPrimaryKeyName = None →
     (attributes.newAttributes recordName attrs values).2
     ≠ Err attributes.notPrimaryKey).
Proof.
  unfold attributes.newAttributes. split.
  - intros a Hid _ [pk ->]%scanPrimaryKey_at_most_one. by rewrite Hid.
  - intros Hid. destruct (attributes.scanPrimaryKey _ _) as [pk|err] eqn:Hscan.
    + rewrite Hid.
      destruct pk as [pk|];
        (destruct (attributes.checkValues _ _ _) as [err|] eqn:Hcheck;
         simpl; [|done];
         by apply checkValues_Some in Hcheck as (? & _ & _ & ->)).
    + apply scanPrimaryKey_Err in Hscan as ->. simpl.
      intros Heq. apply multiplePrimaryKeys_neq_notPrimaryKey. congruence.
Qed.

(** C6.  An assignment to an undeclared name returns the error of the
    unknown attribute and leaves the registry, so its value map, as it
    was; an assignment that the attribute's validator rejects returns the
    validator's error and leaves the registry as it was; any other
    assignment returns no error and stores the value under the name, in a
    fresh map when the value map was nil, changing nothing else. *)
Theorem AssignAttribute_atomic (a : attributes.t) attrName val :
  (attributes.keys a !! attrName = None →
     attributes.AssignAttribute a attrName val
     = (a, Some (ErrUnknownAttribute (attributes.recordName a) attrName)))
  ∧ (∀ attr err, attributes.keys a !! attrName = Some attr →
       Validate attr val = Some err →
       attributes.AssignAttribute a attrName val = (a, Some err))
  ∧ (∀ attr, attributes.keys a !! attrName = Some attr →
       Validate attr val = None →
       ∃ a', attributes.AssignAttribute a attrName val = (a', None)
         ∧ attributes.values a'
           = Some (<[attrName := val]> (default ∅ (attributes.values a)))
         ∧ attributes.AccessAttribute a' attrName = Some val
         ∧ attributes.recordName a' = attributes.recordName a
         ∧ attributes.primaryKey a' = attributes.primaryKey a
         ∧ attributes.keys a' = attributes.keys a).
Proof.
  unfold attributes.AssignAttribute. split_and!.
  - by intros ->.
  - by intros attr err -> ->.
  - intros attr Hattr Hval. rewrite Hattr, Hval. eexists. split; [done|].
    split_and!; try done.
    unfold attributes.AccessAttribute, attributes.HasAttribute. simpl.
    rewrite Hattr, bool_decide_eq_true_2 by eauto. simpl.
    apply lookup_insert_eq.
Qed.
End attributes_properties.

Section attributes_examples.
Import Memory Examples.
#[local] Existing Instances types collaborators runtime.

Lemma newAttributes_primary_key_witness :
  (attributes.newAttributes "person" schemaPlain (Some {[ "age" := 30%Z ]})).2
  = Ok (attributes.mk "person" (Some defaultPrimaryKey)
          (<[ "id" := defaultPrimaryKey ]> schemaPlain)
          (Some {[ "age" := 30%Z ]}))
  ∧ (attributes.newAttributes "person" schemaUid None).2
    = Ok (attributes.mk "person" (Some uidKey) schemaUid None)
  ∧ attributes.newAttributes "person" schemaTwoKeys None
    = (schemaTwoKeys, Err attributes.multiplePrimaryKeys).
Proof.
  pose proof (newAttributes_primary_key "person" schemaPlain
                (Some {[ "age" := 30%Z ]})) as (Hnone & _ & _).
  pose proof (newAttributes_primary_key "person" schemaUid None)
    as (_ & Hone & _).
  pose proof (newAttributes_primary_key "person" schemaTwoKeys None)
    as (_ & _ & Hseveral).
  split_and!.
  - apply Hnone; [vm_compute; reflexivity..|].
    unfold allDeclared. apply (bool_decide_unpack _). vm_compute. exact I.
  - apply (Hone "uid" uidKey); [vm_compute; reflexivity..|].
    unfold allDeclared. apply (bool_decide_unpack _). vm_compute. exact I.
  - apply Hseveral. vm_compute. lia.
Defined.

(** A schema with no marked attribute but with an attribute named id is
    refused: nothing is synthesized.  And a schema that does receive the
    synthesized attribute yields no registry when an initial value is
    undeclared. *)
Lemma newAttributes_primary_key_counterexample :
  (primaryKeys schemaPlainId = []
   ∧ attributes.newAttributes "person" schemaPlainId None
     = (schemaPlainId, Err attributes.notPrimaryKey))
  ∧ (primaryKeys schemaPlain = []
     ∧ attributes.newAttributes "person" schemaPlain
         (Some {[ "height" := 180%Z ]})
       = (<[ "id" := defaultPrimaryKey ]> schemaPlain,
          Err (ErrUnknownAttribute "person" "height"))).
Proof. split_and!; vm_compute; reflexivity. Qed.

Lemma newAttributes_reserved_name_witness :
  attributes.newAttributes "person" schemaPlainId None
  = (schemaPlainId, Err attributes.notPrimaryKey)
  ∧ (attributes.newAttributes "person" schemaUid None).2
    ≠ Err attributes.notPrimaryKey.
Proof.
  split.
  - apply (proj1 (newAttributes_reserved_name "person" schemaPlainId None)
             plainId); [vm_compute; reflexivity..|].
    vm_compute. lia.
  - apply (proj2 (newAttributes_reserved_name "person" schemaUid None)).
    vm_compute. reflexivity.
Defined.

(** The schema whose only primary key is the attribute named id is
    refused with the error of the reserved name, although that attribute
    is marked; and beside two primary keys, an unmarked attribute named
    id is reported as multiple primary keys. *)
Lemma newAttributes_reserved_name_counterexample :
  (primaryKeys schemaIdKey = [("id", idKey)]
   ∧ attributes.newAttributes "person" schemaIdKey None
     = (schemaIdKey, Err attributes.notPrimaryKey)
   ∧ ¬ (∃ r, (attributes.newAttributes "person" schemaIdKey None).2 = Ok r)
   ∧ ¬ ((attributes.newAttributes "person" schemaIdKey None).2
        = Err attributes.notPrimaryKey
        → ∃ a, schemaIdKey !! "id" = Some a ∧ is_primaryKey a = false))
  ∧ (schemaCrowded !! "id" = Some plainId
     ∧ is_primaryKey plainId = false
     ∧ attributes.newAttributes "person" schemaCrowded None
       = (schemaCrowded, Err attributes.multiplePrimaryKeys)
     ∧ (attributes.newAttributes "person" schemaCrowded None).2
       ≠ Err attributes.notPrimaryKey).
Proof.
  assert (attributes.newAttributes "person" schemaIdKey None
          = (schemaIdKey, Err attributes.notPrimaryKey)) as Hid
    by (vm_compute; reflexivity).
  assert (attributes.newAttributes "person" schemaCrowded None
          = (schemaCrowded, Err attributes.multiplePrimaryKeys)) as Hcrowded
    by (vm_compute; reflexivity).
  split; split_and!.
  - vm_compute. reflexivity.
  - exact Hid.
  - intros [r Hr]. rewrite Hid in Hr. discriminate Hr.
  - intros Himp. destruct Himp as (a & Ha & Hmarked).
    + rewrite Hid. reflexivity.
    + vm_compute in Ha. injection Ha as <-. discriminate Hmarked.
  - vm_compute. reflexivity.
  - reflexivity.
  - exact Hcrowded.
  - rewrite Hcrowded. intros Heq. injection Heq. intros. discriminate.
Qed.

Lemma AssignAttribute_atomic_witness :
  attributes.AssignAttribute person "height" 180%Z
  = (person, Some (ErrUnknownAttribute "person" "height"))
  ∧ attributes.AssignAttribute person "age" 200%Z
    = (person, Some (ErrForeign "is too large"))
  ∧ ∃ person', attributes.AssignAttribute person "age" 30%Z = (person', None)
      ∧ attributes.values person' = Some {[ "age" := 30%Z ]}.
Proof.
  pose proof (AssignAttribute_atomic person "height" 180%Z) as (Hunknown & _).
  pose proof (AssignAttribute_atomic person "age" 200%Z) as (_ & Hinvalid & _).
  pose proof (AssignAttribute_atomic person "age" 30%Z) as (_ & _ & Hvalid).
  split_and!.
  - apply Hunknown. vm_compute. reflexivity.
  - apply (Hinvalid age); vm_compute; reflexivity.
  - destruct (Hvalid age) as (person' & Hassign & Hvalues & _);
      [vm_compute; reflexivity..|].
    exists person'. split; [exact Hassign|]. rewrite Hvalues. reflexivity.
Defined.
End attributes_examples.

(** ** The association resolvers *)

Section resolvers_properties.
Context `{Types} `{!Collaborators} `{!GoRuntime}.

(** C1, as amended.  [BelongsTo] and [HasMany] return the foreign key set
    on them when there is one, and their own default otherwise: the name
    of the target followed by _id, and the lowercased name of the owner
    followed by _id.  [HasOne] returns the default name of the primary
    key whether or not a foreign key is set on it. *)
Theorem AssociationForeignKey_override :
  (∀ a : BelongsTo.t,
     (BelongsTo.foreignKey a ≠ "" →
      BelongsTo.AssociationForeignKey a = BelongsTo.foreignKey a)
     ∧ (BelongsTo.foreignKey a = "" →
        BelongsTo.AssociationForeignKey a
        = BelongsTo.targetName a +:+ "_id"))
  ∧ (∀ a : HasMany.t,
       (HasMany.foreignKey a ≠ "" →
        HasMany.AssociationForeignKey a = HasMany.foreignKey a)
       ∧ (HasMany.foreignKey a = "" →
          HasMany.AssociationForeignKey a
          = ToLower (Relation_Name (HasMany.owner a)) +:+ "_id"))
  ∧ (∀ a : HasOne.t, HasOne.AssociationForeignKey a = defaultPrimaryKeyName).
Proof.
  split_and!; [intros a..|done];
    unfold BelongsTo.AssociationForeignKey, HasMany.AssociationForeignKey;
    split; intros Hkey; by case_decide.
Qed.

(** C7.  Without a foreign key set, [BelongsTo] answers the name of the
    target as it is written followed by _id, and [HasMany] answers the
    lowercased name of the owner relation followed by _id. *)
Theorem default_foreign_key :
  (∀ a : BelongsTo.t, BelongsTo.foreignKey a = "" →
     BelongsTo.AssociationForeignKey a = BelongsTo.targetName a +:+ "_id")
  ∧ (∀ a : HasMany.t, HasMany.foreignKey a = "" →
       HasMany.AssociationForeignKey a
       = ToLower (Relation_Name (HasMany.owner a)) +:+ "_id").
Proof.
  split; intros a Hkey;
    unfold BelongsTo.AssociationForeignKey, HasMany.AssociationForeignKey;
    by rewrite decide_False by (by rewrite Hkey; intros []).
Qed.

(** C4.  [HasOne.AccessAssociation] looks the target up, and reads the
    relation narrowed by its foreign key to the id of the owner and
    limited to two records, once.  An error of the lookup or of the read
    is returned; no record gives the nil record without error, one
    record gives that record, and two or more give an association error
    that reports the records. *)
Theorem HasOne_AccessAssociation_cardinality (a : HasOne.t)
    (owner : ptr ActiveRecord) (log : list Call) :
  let lookup := CallReflection (HasOne.reflection a) (HasOne.targetName a) in
  ∀ targets,
  let query :=
    Relation_Limit (narrowed targets (HasOne.AssociationForeignKey a) owner) 2 in
  (∀ err,
     Reflection_Reflection (HasOne.reflection a) (HasOne.targetName a)
     = (targets, Some err) →
     HasOne.AccessAssociation a owner log = (Err err, log ++ [lookup]))
  ∧ (Reflection_Reflection (HasOne.reflection a) (HasOne.targetName a)
     = (targets, None) →
     (HasOne.AccessAssociation a owner log).2 = log ++ [lookup; CallToA query]
     ∧ (∀ records err, Relation_ToA query = (records, Some err) →
          (HasOne.AccessAssociation a owner log).1 = Err err)
     ∧ (Relation_ToA query = ([], None) →
          (HasOne.AccessAssociation a owner log).1 = Ok nil)
     ∧ (∀ record, Relation_ToA query = ([record], None) →
          (HasOne.AccessAssociation a owner log).1 = Ok record)
     ∧ (∀ records, Relation_ToA query = (records, None) →
          (2 ≤ length records)%nat →
          (HasOne.AccessAssociation a owner log).1
          = Err (ErrAssociation
                   ("declared 'has_one' association, but has many: "
                    +:+ Sprint_records records)))).
Proof.
  intros lookup targets query.
  unfold HasOne.AccessAssociation; run_M.
  split.
  - by intros err ->.
  - intros ->. fold (narrowed targets (HasOne.AssociationForeignKey a) owner).
    fold query. split_and!.
    + destruct (Relation_ToA query) as [[|? [|??]] [?|]]; simpl;
        by rewrite <-(assoc_L (++)).
    + by intros records err ->.
    + by intros ->.
    + by intros record ->.
    + intros records -> Hlen.
      destruct records as [|? [|??]]; simpl in Hlen; [lia..|done].
Qed.

(** C9.  [HasMany.AccessCollection] calls the lookup of the target and
    nothing else: no query is executed.  When the lookup succeeds it
    returns the target within the context of the owner, narrowed by its
    foreign key to the id of the owner; when the lookup fails it returns
    the error of the lookup. *)
Theorem HasMany_AccessCollection_lazy (a : HasMany.t)
    (owner : ptr ActiveRecord) (log : list Call) :
  let lookup := CallReflection (HasMany.reflection a) (HasMany.targetName a) in
  (∀ targets,
     Reflection_Reflection (HasMany.reflection a) (HasMany.targetName a)
     = (targets, None) →
     HasMany.AccessCollection a owner log
     = (Ok (narrowed targets (HasMany.AssociationForeignKey a) owner),
        log ++ [lookup]))
  ∧ (∀ targets err,
       Reflection_Reflection (HasMany.reflection a) (HasMany.targetName a)
       = (targets, Some err) →
       HasMany.AccessCollection a owner log = (Err err, log ++ [lookup]))
  ∧ terminalCalls (HasMany.AccessCollection a owner log).2
    = terminalCalls log.
Proof.
  intros lookup.
  unfold HasMany.AccessCollection; run_M.
  split_and!.
  - by intros targets ->.
  - by intros targets err ->.
  - destruct (Reflection_Reflection _ _) as [targets [err|]]; simpl;
      unfold terminalCalls; by rewrite filter_app, app_nil_r.
Qed.
End resolvers_properties.

Section resolvers_examples.
Import Memory Examples.
#[local] Existing Instances types collaborators runtime.

Lemma AssociationForeignKey_override_witness :
  BelongsTo.AssociationForeignKey belongsToKeyed = "parent"
  ∧ BelongsTo.AssociationForeignKey belongsTo = "Target_id"
  ∧ HasMany.AssociationForeignKey hasManyKeyed = "holder"
  ∧ HasMany.AssociationForeignKey hasMany = "owner_id"
  ∧ HasOne.AssociationForeignKey hasOneKeyed = "id".
Proof.
  pose proof AssociationForeignKey_override as (Hbelongs & Hmany & Hone).
  split_and!.
  - apply (proj1 (Hbelongs belongsToKeyed)). vm_compute. discriminate.
  - apply (proj2 (Hbelongs belongsTo)). vm_compute. reflexivity.
  - apply (proj1 (Hmany hasManyKeyed)). vm_compute. discriminate.
  - apply (proj2 (Hmany hasMany)). vm_compute. reflexivity.
  - apply (Hone hasOneKeyed).
Defined.

(** A [HasOne] with the foreign key owner_id set answers id. *)
Lemma AssociationForeignKey_override_counterexample :
  HasOne.foreignKey hasOneKeyed = "owner_id"
  ∧ HasOne.AssociationForeignKey hasOneKeyed = "id"
  ∧ HasOne.AssociationForeignKey hasOneKeyed ≠ HasOne.foreignKey hasOneKeyed.
Proof. split_and!; [reflexivity..|discriminate]. Qed.

Lemma default_foreign_key_witness :
  BelongsTo.AssociationForeignKey belongsTo = "Target_id"
  ∧ HasMany.AssociationForeignKey hasMany = "owner_id".
Proof.
  split.
  - etrans; [apply (proj1 default_foreign_key belongsTo)|];
      vm_compute; reflexivity.
  - etrans; [apply (proj2 default_foreign_key hasMany)|];
      vm_compute; reflexivity.
Defined.

Lemma HasOne_AccessAssociation_cardinality_witness :
  HasOne.AccessAssociation hasOneLost (ownerOf 1) []
  = (Err (ErrForeign "unknown relation widget"),
     [CallReflection db "widget"])
  ∧ (HasOne.AccessAssociation hasOne (ownerOf 1) []).2
    = [CallReflection db "target"; CallToA (hasOneQuery 1)]
  ∧ (HasOne.AccessAssociation hasOneOffline (ownerOf 1) []).1
    = Err (ErrForeign "storage is offline")
  ∧ (HasOne.AccessAssociation hasOne (ownerOf 5) []).1 = Ok nil
  ∧ (HasOne.AccessAssociation hasOne (ownerOf 1) []).1 = Ok (Some target1)
  ∧ (HasOne.AccessAssociation hasOne (ownerOf 2) []).1
    = Err (ErrAssociation
             "declared 'has_one' association, but has many: target target").
Proof.
  pose proof (HasOne_AccessAssociation_cardinality
                hasOneLost (ownerOf 1) [] None) as Hlost.
  pose proof (HasOne_AccessAssociation_cardinality
                hasOneOffline (ownerOf 1) []
                (Some (mkQuery "offline" [] 0 [] None))) as Hoffline.
  pose proof (λ id, HasOne_AccessAssociation_cardinality
                      hasOne (ownerOf id) []
                      (Some (mkQuery "target" targets 0 [] None))) as Hfound.
  cbv zeta in Hlost, Hoffline, Hfound.
  destruct Hlost as (Hlost & _).
  destruct Hoffline as (_ & (_ & Hoffline & _)); [vm_compute; reflexivity|].
  assert (∀ id, _) as Hrun
    by (intros id; refine (proj2 (Hfound id) _); vm_compute; reflexivity).
  split_and!.
  - etrans; [eapply Hlost|]; vm_compute; reflexivity.
  - etrans; [apply (Hrun 1%Z)|]. vm_compute. reflexivity.
  - etrans; [eapply Hoffline|]; vm_compute; reflexivity.
  - destruct (Hrun 5%Z) as (_ & _ & Hzero & _).
    apply Hzero. vm_compute. reflexivity.
  - destruct (Hrun 1%Z) as (_ & _ & _ & Hone & _).
    apply Hone. vm_compute. reflexivity.
  - destruct (Hrun 2%Z) as (_ & _ & _ & _ & Hmany).
    etrans; [apply (Hmany [Some target2; Some target2'])|];
      [vm_compute; reflexivity|simpl; lia|vm_compute; reflexivity].
Defined.

Lemma HasMany_AccessCollection_lazy_witness :
  HasMany.AccessCollection hasMany (ownerOf 1) []
  = (Ok (Some (mkQuery "target" targets 7 [("owner_id", 1%Z)] None)),
     [CallReflection db "target"])
  ∧ HasMany.AccessCollection hasManyLost (ownerOf 1) []
    = (Err (ErrForeign "unknown relation widgets"),
       [CallReflection db "widgets"]).
Proof.
  pose proof (HasMany_AccessCollection_lazy hasMany (ownerOf 1) [])
    as Hfound.
  pose proof (HasMany_AccessCollection_lazy hasManyLost (ownerOf 1) [])
    as Hlost.
  cbv zeta in Hfound, Hlost.
  destruct Hfound as (Hfound & _). destruct Hlost as (_ & Hlost & _).
  split.
  - etrans; [eapply Hfound|]; vm_compute; reflexivity.
  - etrans; [eapply Hlost|]; vm_compute; reflexivity.
Defined.
End resolvers_examples.

(** ** The association registry *)

Section registry_properties.
Context `{Types} `{!Collaborators} `{!GoRuntime}.
Implicit Types (a : associations.t) (log : list Call).

Lemma get_lookup a assocName :
  associations.get a assocName = associations.keys a !! assocName.
Proof.
  unfold associations.get, associations.HasAssociation.
  case_bool_decide as Hkey; [done|].
  symmetry. apply eq_None_not_Some, Hkey.
Qed.

(** Every singular resolver begins with the lookup of its target. *)
Lemma asSingular_calls (assoc : Association) resolve owner log :
  asSingular assoc = Some resolve →
  ∃ calls, calls ≠ [] ∧ (resolve owner log).2 = log ++ calls.
Proof.
  destruct assoc as [b|m|o]; intros [= <-].
  - unfold BelongsTo.AccessAssociation; run_M.
    destruct (Reflection_Reflection _ _) as [targets [err|]]; simpl.
    + by eexists [_].
    + rewrite <-(assoc_L (++)). by eexists [_; _].
  - unfold HasOne.AccessAssociation; run_M.
    destruct (Reflection_Reflection _ _) as [targets [err|]]; simpl.
    + by eexists [_].
    + destruct (Relation_ToA _) as [[|? [|??]] [?|]]; simpl;
        rewrite <-(assoc_L (++)); by eexists [_; _].
Qed.

(** C2, as amended.  For a declared name under which a record is cached,
    every call of [Association] returns that record and calls no
    collaborator.  For a declared singular name without a cached record,
    every call runs the resolver, which calls its collaborators anew: a
    call of [Association] puts nothing into the cache. *)
Theorem Association_cache a assocName assoc log :
  associations.keys a !! assocName = Some assoc →
  (∀ rec, associations.values a !! assocName = Some rec →
     associations.Association a assocName log = (Ok rec, log)
     ∧ associations.Association a assocName
         (associations.Association a assocName log).2 = (Ok rec, log))
  ∧ (∀ resolve, associations.values a !! assocName = None →
       asSingular assoc = Some resolve →
       associations.Association a assocName log
       = resolve (associations.rec a) log
       ∧ ∃ calls, calls ≠ []
           ∧ (associations.Association a assocName log).2 = log ++ calls).
Proof.
  intros Hkey. unfold associations.Association. rewrite get_lookup, Hkey.
  split.
  - by intros rec ->.
  - intros resolve -> Hsingular. rewrite Hsingular. split; [done|].
    by eapply asSingular_calls.
Qed.

(** The functions that build a registry leave its cache empty. *)
Lemma built_values a : built a → associations.values a = ∅.
Proof. induction 1; done. Qed.

(** C8.  For an undeclared name, [Association] and [Collection] return the
    error of the unknown association, with the name of the registry's
    record.  On every registry that [newAssociations], [delegateAccessors]
    and [copy] build, [Association] returns, for a name declared as
    [HasMany], the error that the name is not a singular association.  For
    a name declared as [BelongsTo] or [HasOne], [Collection] returns the
    error that the name is not a collection association, and no
    collection.  None of these calls a collaborator. *)
Theorem dispatch_errors a assocName log :
  (associations.keys a !! assocName = None →
     associations.Association a assocName log
     = (Err (ErrUnknownAssociation
               (ActiveRecord_Name (associations.rec a)) assocName), log)
     ∧ associations.Collection a assocName log
       = (Err (ErrUnknownAssociation
                 (ActiveRecord_Name (associations.rec a)) assocName), log))
  ∧ (∀ m, built a →
       associations.keys a !! assocName = Some (HasMany m) →
       associations.Association a assocName log
       = (Err (ErrAssociation
                 ("'" +:+ assocName +:+ "' is not a singular association")),
          log))
  ∧ (∀ assoc, associations.keys a !! assocName = Some assoc →
       (∃ b, assoc = BelongsTo b) ∨ (∃ o, assoc = HasOne o) →
       associations.Collection a assocName log
       = (Err (ErrAssociation
                 ("'" +:+ assocName +:+ "' is not a collection association")),
          log)).
Proof.
  unfold associations.Association, associations.Collection.
  rewrite get_lookup. split_and!.
  - by intros ->.
  - intros m Hvalues%built_values ->. by rewrite Hvalues, lookup_empty.
  - by intros assoc -> [[b ->]|[o ->]].
Qed.

(** The loop of [ReflectOnAllAssociations] makes one lookup for each
    entry, by the name the association answers, and keeps the entries
    whose lookup returns a relation. *)
Lemma reflectOnEach_spec r (l : list (string * Association)) arefs log :
  associations.reflectOnEach r l arefs log
  = (arefs ++ omap (λ kv, reflected r kv.2) l,
     log ++ ((λ kv, lookupCall r kv.2) <$> l)).
Proof.
  unfold reflected, lookupCall. revert arefs log.
  induction l as [|[k assoc] l IH]; intros arefs log.
  - simpl. by rewrite !app_nil_r.
  - simpl. run_M.
    destruct (Reflection_Reflection r (AssociationName assoc))
      as [[rel|] err]; simpl; rewrite IH;
      by rewrite <-?(assoc_L (++)).
Qed.

(** C10.  [ReflectOnAssociation] and [ReflectOnAllAssociations] look a
    declared association up by the name that its [AssociationName]
    answers.  For a [HasOne] this is the foreign key set on it, or else
    the name of its target followed by _id; when the lookup of that name
    fails and returns no relation, [ReflectOnAssociation] returns nil and
    [ReflectOnAllAssociations] has no entry for the association, whatever
    is registered under the name of the target. *)
Theorem reflection_by_AssociationName a log :
  (∀ assocName assoc, associations.keys a !! assocName = Some assoc →
     (associations.ReflectOnAssociation a assocName log).2
     = log ++ [CallReflection (associations.reflection a)
                 (AssociationName assoc)])
  ∧ (associations.ReflectOnAllAssociations a log).2
    = log ++ ((λ kv, CallReflection (associations.reflection a)
                       (AssociationName kv.2))
              <$> range (associations.keys a))
  ∧ (∀ o, AssociationName (HasOne o)
          = if decide (HasOne.foreignKey o ≠ "") then HasOne.foreignKey o
            else HasOne.targetName o +:+ "_id")
  ∧ (∀ assocName o err,
       associations.keys a !! assocName = Some (HasOne o) →
       Reflection_Reflection (associations.reflection a)
         (HasOne.AssociationName o) = (nil, Some err) →
       (associations.ReflectOnAssociation a assocName log).1 = nil
       ∧ ∀ aref, aref ∈ (associations.ReflectOnAllAssociations a log).1 →
                 AssociationReflection_Association aref ≠ HasOne o).
Proof.
  unfold associations.ReflectOnAssociation,
    associations.ReflectOnAllAssociations.
  split_and!.
  - intros assocName assoc Hkey. rewrite get_lookup, Hkey.
    run_M.
    by destruct (Reflection_Reflection _ _) as [rel [err|]].
  - by rewrite reflectOnEach_spec.
  - done.
  - intros assocName o err Hkey Hlookup. split.
    + rewrite get_lookup, Hkey. run_M.
      simpl. by rewrite Hlookup.
    + intros aref. rewrite reflectOnEach_spec. simpl.
      intros ([k assoc] & _ & Hreflected)%list_elem_of_omap Hassoc.
      unfold reflected in Hreflected. simpl in Hreflected.
      destruct (Reflection_Reflection _ (AssociationName assoc))
        as [[rel|] err'] eqn:Hrel; simplify_eq/=.
      unfold nil in Hlookup. congruence.
Qed.
End registry_properties.

Section registry_examples.
Import Memory Examples.
#[local] Existing Instances types collaborators runtime.

Lemma Association_cache_witness :
  associations.Association registryCached "target" [] = (Ok (Some target2'), [])
  ∧ associations.Association registry "target" []
    = HasOne.AccessAssociation hasOne (ownerOf 1) [].
Proof.
  destruct (Association_cache registryCached "target" (HasOne hasOne) [])
    as (Hcached & _); [vm_compute; reflexivity|].
  destruct (Association_cache registry "target" (HasOne hasOne) [])
    as (_ & Hresolve); [vm_compute; reflexivity|].
  split.
  - destruct (Hcached (Some target2')) as (Hfirst & _);
      [vm_compute; reflexivity|exact Hfirst].
  - destruct (Hresolve (HasOne.AccessAssociation hasOne)) as (Hrun & _);
      [vm_compute; reflexivity..|].
    etrans; [exact Hrun|]. vm_compute. reflexivity.
Defined.

(** The first call resolves the target of the owner; the cache of the
    registry has no record under the name; and the second call, made
    with the log of the first, looks the target up and reads it again. *)
Lemma Association_cache_counterexample :
  let first := associations.Association registry "target" [] in
  first = (Ok (Some target1),
           [CallReflection db "target"; CallToA (hasOneQuery 1)])
  ∧ associations.values registry !! "target" = None
  ∧ associations.Association registry "target" first.2
    = (Ok (Some target1),
       [CallReflection db "target"; CallToA (hasOneQuery 1);
        CallReflection db "target"; CallToA (hasOneQuery 1)]).
Proof. split_and!; vm_compute; reflexivity. Qed.

Lemma dispatch_errors_witness :
  associations.Association registry "friends" []
  = (Err (ErrUnknownAssociation "owner" "friends"), [])
  ∧ associations.Collection registry "friends" []
    = (Err (ErrUnknownAssociation "owner" "friends"), [])
  ∧ associations.Association registry "targets" []
    = (Err (ErrAssociation "'targets' is not a singular association"), [])
  ∧ associations.Collection registry "parent" []
    = (Err (ErrAssociation "'parent' is not a collection association"), [])
  ∧ associations.Collection registry "target" []
    = (Err (ErrAssociation "'target' is not a collection association"), []).
Proof.
  pose proof (dispatch_errors registry "friends" []) as (Hunknown & _ & _).
  pose proof (dispatch_errors registry "targets" []) as (_ & Hmany & _).
  pose proof (dispatch_errors registry "parent" []) as (_ & _ & Hparent).
  pose proof (dispatch_errors registry "target" []) as (_ & _ & Htarget).
  split_and!.
  - apply Hunknown. vm_compute. reflexivity.
  - apply Hunknown. vm_compute. reflexivity.
  - apply (Hmany hasMany); [|vm_compute; reflexivity].
    apply built_delegate, built_new.
  - apply (Hparent (BelongsTo belongsToKeyed)); [vm_compute; reflexivity|].
    left. exists belongsToKeyed. reflexivity.
  - apply (Htarget (HasOne hasOne)); [vm_compute; reflexivity|].
    right. exists hasOne. reflexivity.
Defined.

Lemma reflection_by_AssociationName_witness :
  (associations.ReflectOnAssociation registry "target" []).2
  = [CallReflection db "target_id"]
  ∧ (associations.ReflectOnAssociation registry "target" []).1 = nil
  ∧ (∀ aref,
       aref ∈ (associations.ReflectOnAllAssociations registry []).1 →
       AssociationReflection_Association aref ≠ HasOne hasOne)
  ∧ (Reflection_Reflection db "target").2 = None.
Proof.
  pose proof (reflection_by_AssociationName registry [])
    as (Hcall & _ & _ & Hnil).
  split_and!.
  - apply (Hcall "target" (HasOne hasOne)). vm_compute. reflexivity.
  - apply (Hnil "target" hasOne
             (@ErrForeign types "unknown relation target_id"));
      vm_compute; reflexivity.
  - apply (Hnil "target" hasOne
             (@ErrForeign types "unknown relation target_id"));
      vm_compute; reflexivity.
  - vm_compute. reflexivity.
Defined.
End registry_examples.

(** * Further properties *)

(** ** Construction of the attribute registry *)

Section construction_properties.
Context `{Types} `{!Collaborators} `{!GoRuntime}.
Implicit Types (attrs : gmap string Attribute).

(** The schema that the caller holds once [newAttributes] has returned. *)
Lemma newAttributes_schema_after recordName attrs values :
  (attributes.newAttributes recordName attrs values).1
  = match primaryKeys attrs, attrs !! defaultPrimaryKeyName with
    | [], None => <[defaultPrimaryKeyName := defaultPrimaryKey]> attrs
    | _, _ => attrs
    end.
Proof.
  unfold attributes.newAttributes.
  destruct (primaryKeys attrs) as [|[k a] [|??]] eqn:Hkeys.
  - rewrite (scanPrimaryKey_none _ Hkeys).
    destruct (attrs !! defaultPrimaryKeyName); [done|].
    by destruct (attributes.checkValues _ _ _).
  - rewrite (scanPrimaryKey_one _ _ _ Hkeys).
    destruct (attrs !! defaultPrimaryKeyName); [done|].
    by destruct (attributes.checkValues _ _ _).
  - rewrite scanPrimaryKey_several; [done|]. rewrite Hkeys. simpl. lia.
Qed.

(** Storing an attribute under a fresh name adds it to the marked
    attributes when it is marked, and changes nothing else. *)
Lemma primaryKeys_insert attrs k a :
  attrs !! k = None →
  primaryKeys (<[k := a]> attrs)
  ≡ₚ (if is_primaryKey a then [(k, a)] else []) ++ primaryKeys attrs.
Proof.
  intros Hfresh. unfold primaryKeys.
  rewrite (map_to_list_insert _ _ _ Hfresh).
  destruct (is_primaryKey a) eqn:Ha.
  - by rewrite filter_cons_True by (simpl; rewrite Ha; exact I).
  - by rewrite filter_cons_False by (simpl; rewrite Ha; exact id).
Qed.

(** X3.  [newAttributes] changes the schema of its caller in one case
    only: when no attribute is marked as primary key and none is named id,
    the synthesized primary key is stored under id, also when the call then
    fails on an undeclared initial value.  No declared attribute is ever
    removed or replaced. *)
Theorem newAttributes_schema_effect recordName attrs values :
  (attributes.newAttributes recordName attrs values).1
  = match primaryKeys attrs, attrs !! defaultPrimaryKeyName with
    | [], None => <[defaultPrimaryKeyName := defaultPrimaryKey]> attrs
    | _, _ => attrs
    end
  ∧ attrs ⊆ (attributes.newAttributes recordName attrs values).1
  ∧ (∀ name, name ≠ defaultPrimaryKeyName →
       (attributes.newAttributes recordName attrs values).1 !! name
       = attrs !! name).
Proof.
  rewrite newAttributes_schema_after.
  destruct (primaryKeys attrs) as [|??];
    destruct (attrs !! defaultPrimaryKeyName) eqn:Hid; split_and!; try done.
  - by apply insert_subseteq.
  - intros name Hname. by apply lookup_insert_ne.
Qed.

(** X1.  A registry that [newAttributes] returns has the record name and
    the values it was given; its schema is the caller's schema after the
    call and contains the schema given; every value is the value of a
    declared attribute; and exactly one attribute of the schema is marked
    as primary key, which is the primary key of the registry. *)
Theorem newAttributes_invariant recordName attrs values r :
  (attributes.newAttributes recordName attrs values).2 = Ok r →
  attributes.recordName r = recordName
  ∧ attributes.values r = values
  ∧ attributes.keys r = (attributes.newAttributes recordName attrs values).1
  ∧ attrs ⊆ attributes.keys r
  ∧ allDeclared (attributes.keys r) values
  ∧ ∃ k pk, attributes.primaryKey r = Some pk
            ∧ primaryKeys (attributes.keys r) = [(k, pk)].
Proof.
  unfold attributes.newAttributes.
  destruct (primaryKeys attrs) as [|[k a] [|??]] eqn:Hkeys.
  - rewrite (scanPrimaryKey_none _ Hkeys).
    destruct (attrs !! defaultPrimaryKeyName) eqn:Hid; [done|].
    fold defaultPrimaryKey.
    destruct (attributes.checkValues _ _ _) eqn:Hcheck; [done|].
    intros [= <-]. simpl. split_and!; try done.
    + by apply insert_subseteq.
    + apply checkValues_None in Hcheck. unfold allDeclared, entries.
      destruct values as [values|]; simpl in *; [|done].
      by rewrite <-(range_perm _ values).
    + exists defaultPrimaryKeyName, defaultPrimaryKey. split; [done|].
      pose proof (primaryKeys_insert attrs defaultPrimaryKeyName
                    defaultPrimaryKey Hid) as Hperm.
      rewrite Hkeys in Hperm. by apply Permutation_singleton_r in Hperm.
  - rewrite (scanPrimaryKey_one _ _ _ Hkeys).
    destruct (attrs !! defaultPrimaryKeyName) eqn:Hid; [done|].
    destruct (attributes.checkValues _ _ _) eqn:Hcheck; [done|].
    intros [= <-]. simpl. split_and!; try done.
    + apply checkValues_None in Hcheck. unfold allDeclared, entries.
      destruct values as [values|]; simpl in *; [|done].
      by rewrite <-(range_perm _ values).
    + by exists k, a.
  - rewrite scanPrimaryKey_several; [done|]. rewrite Hkeys. simpl. lia.
Qed.

(** X2.  The errors of [newAttributes].  The error of multiple primary
    keys is returned for a schema with two or more marked attributes; the
    error of the reserved name for a schema that has an attribute named
    id; the error of an unknown attribute names one of the initial values
    that the schema, after the call, does not declare.  No other error is
    returned, and without any of the three causes a registry is
    returned. *)
Theorem newAttributes_errors recordName attrs values :
  let schema := (attributes.newAttributes recordName attrs values).1 in
  (∀ err,
     (attributes.newAttributes recordName attrs values).2 = Err err →
     (err = attributes.multiplePrimaryKeys
      ∧ (2 ≤ length (primaryKeys attrs))%nat)
     ∨ (err = attributes.notPrimaryKey
        ∧ is_Some (attrs !! defaultPrimaryKeyName))
     ∨ (∃ attrName, err = ErrUnknownAttribute recordName attrName
                    ∧ is_Some (attributes.lookup_nilable values attrName)
                    ∧ schema !! attrName = None))
  ∧ ((length (primaryKeys attrs) ≤ 1)%nat →
     attrs !! defaultPrimaryKeyName = None →
     allDeclared schema values →
     ∃ r, (attributes.newAttributes recordName attrs values).2 = Ok r).
Proof.
  intros schema. subst schema. split.
  - intros err. unfold attributes.newAttributes.
    destruct (attributes.scanPrimaryKey _ _) as [pk|err'] eqn:Hscan.
    + destruct (attrs !! defaultPrimaryKeyName) eqn:Hid.
      { simpl. intros [= <-]. right. left. eauto. }
      destruct pk as [pk|];
        (destruct (attributes.checkValues _ _ _) as [err'|] eqn:Hcheck;
         simpl; [|done]; intros [= <-]; right; right;
         apply checkValues_Some in Hcheck
           as (attrName & Hname & Hundeclared & ->);
         exists attrName; split_and!; [done| |done];
         destruct values as [values|]; simpl in Hname;
         [|by apply elem_of_nil in Hname];
         apply list_elem_of_fmap in Hname as ([k v] & -> & Hkv);
         apply range_elem_of in Hkv; simpl; eauto).
    + simpl. intros [= <-]. left.
      split; [by eapply scanPrimaryKey_Err|].
      destruct (primaryKeys attrs) as [|[k a] [|??]] eqn:Hkeys;
        [|  |simpl; lia].
      * by rewrite (scanPrimaryKey_none _ Hkeys) in Hscan.
      * by rewrite (scanPrimaryKey_one _ _ _ Hkeys) in Hscan.
  - intros Hone Hid. rewrite newAttributes_schema_after, Hid.
    unfold attributes.newAttributes.
    destruct (primaryKeys attrs) as [|[k a] [|??]] eqn:Hkeys;
      [| |simpl in Hone; lia].
    + rewrite (scanPrimaryKey_none _ Hkeys), Hid. fold defaultPrimaryKey.
      intros Hvalues. rewrite (allDeclared_range _ _ _ Hvalues). eauto.
    + rewrite (scanPrimaryKey_one _ _ _ Hkeys), Hid.
      intros Hvalues. rewrite (allDeclared_range _ _ _ Hvalues). eauto.
Qed.
End construction_properties.

Section construction_examples.
Import Memory Examples.
#[local] Existing Instances types collaborators runtime.

Lemma newAttributes_schema_effect_witness :
  (attributes.newAttributes "person" schemaPlain personValues).1 !! "age"
  = schemaPlain !! "age".
Proof.
  apply (newAttributes_schema_effect "person" schemaPlain personValues).
  discriminate.
Defined.

Lemma newAttributes_invariant_witness :
  attributes.recordName personBuilt = "person"
  ∧ attributes.values personBuilt = personValues
  ∧ attributes.keys personBuilt
    = (attributes.newAttributes "person" schemaPlain personValues).1
  ∧ schemaPlain ⊆ attributes.keys personBuilt
  ∧ allDeclared (attributes.keys personBuilt) personValues
  ∧ ∃ k pk, attributes.primaryKey personBuilt = Some pk
            ∧ primaryKeys (attributes.keys personBuilt) = [(k, pk)].
Proof.
  apply (newAttributes_invariant "person" schemaPlain personValues).
  vm_compute. reflexivity.
Defined.

Lemma newAttributes_errors_witness :
  (∃ attrName,
     ErrUnknownAttribute "person" "height"
     = ErrUnknownAttribute "person" attrName
     ∧ is_Some (attributes.lookup_nilable
                  (Some ({[ "height" := 180%Z ]} : gmap string Z)) attrName))
  ∧ ∃ r, (attributes.newAttributes "person" schemaUid None).2 = Ok r.
Proof.
  split.
  - destruct (proj1 (newAttributes_errors "person" schemaPlain
                       (Some {[ "height" := 180%Z ]}))
                (ErrUnknownAttribute "person" "height"))
      as [[Hmany _]|[[Hreserved _]|(attrName & Herr & Hvalue & _)]].
    + vm_compute. reflexivity.
    + discriminate Hmany.
    + discriminate Hreserved.
    + exists attrName. split; [exact Herr|exact Hvalue].
  - apply (proj2 (newAttributes_errors "person" schemaUid None)).
    + vm_compute. lia.
    + vm_compute. reflexivity.
    + unfold allDeclared. apply (bool_decide_unpack _). vm_compute. exact I.
Defined.
End construction_examples.

(** ** Assignment and access of attributes *)

Section assignment_properties.
Context `{Types} `{!Collaborators} `{!GoRuntime}.
Implicit Types (a : attributes.t).

Lemma allDeclared_lookup (keys : gmap string Attribute) values :
  allDeclared keys values
  ↔ ∀ k v, attributes.lookup_nilable values k = Some v → is_Some (keys !! k).
Proof.
  unfold allDeclared, entries. rewrite Forall_forall.
  destruct values as [values|]; simpl.
  - split.
    + intros Hall k v Hk. by apply (Hall (k, v)), elem_of_map_to_list.
    + intros Hall [k v] Hk%elem_of_map_to_list. by eapply Hall.
  - split; [done|]. by intros _ kv ?%elem_of_nil.
Qed.

(** X4.  A successful assignment changes the value read under the
    assigned name only: every other name reads as before, and the same
    names are declared. *)
Theorem AssignAttribute_frame a attrName val a' :
  attributes.AssignAttribute a attrName val = (a', None) →
  attributes.AccessAttribute a' attrName = Some val
  ∧ (∀ other, other ≠ attrName →
       attributes.AccessAttribute a' other = attributes.AccessAttribute a other)
  ∧ (∀ other, attributes.HasAttribute a' other = attributes.HasAttribute a other).
Proof.
  unfold attributes.AssignAttribute.
  destruct (attributes.keys a !! attrName) as [attr|] eqn:Hattr; [|done].
  destruct (Validate attr val); [done|]. intros [= <-].
  unfold attributes.AccessAttribute, attributes.HasAttribute. simpl.
  split_and!.
  - rewrite Hattr, bool_decide_eq_true_2 by eauto. apply lookup_insert_eq.
  - intros other Hother. case_bool_decide; [|done].
    rewrite lookup_insert_ne by done. by destruct (attributes.values a).
  - done.
Qed.

(** X5.  Assignment keeps the registry well formed: when every value of
    the registry belonged to a declared attribute before the call, it does
    so after the call, whether the call succeeds or fails; and the schema
    and the primary key are never changed. *)
Theorem AssignAttribute_keeps_declared a attrName val :
  let a' := (attributes.AssignAttribute a attrName val).1 in
  attributes.keys a' = attributes.keys a
  ∧ attributes.primaryKey a' = attributes.primaryKey a
  ∧ attributes.recordName a' = attributes.recordName a
  ∧ (allDeclared (attributes.keys a) (attributes.values a) →
     allDeclared (attributes.keys a') (attributes.values a')).
Proof.
  unfold attributes.AssignAttribute.
  destruct (attributes.keys a !! attrName) as [attr|] eqn:Hattr; [|done].
  destruct (Validate attr val); [done|]. simpl. split_and!; [done..|].
  rewrite !allDeclared_lookup. intros Hall k v. simpl.
  destruct (decide (k = attrName)) as [->|Hk]; [eauto|].
  rewrite lookup_insert_ne by done. intros Hv. apply (Hall k v).
  destruct (attributes.values a); [done|]. by rewrite lookup_empty in Hv.
Qed.

(** X6.  Of two successive assignments to one attribute the second wins:
    the registry is the one that the second assignment alone produces.
    Assignments to two different attributes give the same registry in
    either order. *)
Theorem AssignAttribute_sequence a attr1 attr2 name1 name2 val1 val2 :
  attributes.keys a !! name1 = Some attr1 →
  attributes.keys a !! name2 = Some attr2 →
  Validate attr1 val1 = None →
  Validate attr2 val2 = None →
  let assign name val a := (attributes.AssignAttribute a name val).1 in
  (name1 = name2 → assign name2 val2 (assign name1 val1 a) = assign name2 val2 a)
  ∧ (name1 ≠ name2 →
     assign name2 val2 (assign name1 val1 a)
     = assign name1 val1 (assign name2 val2 a)).
Proof.
  intros Hattr1 Hattr2 Hval1 Hval2 assign. subst assign.
  unfold attributes.AssignAttribute. simpl.
  rewrite Hattr1, Hattr2, Hval1, Hval2. simpl.
  rewrite Hattr1, Hattr2, Hval1, Hval2. simpl. split.
  - intros ->. by rewrite insert_insert_eq.
  - intros Hne. do 2 f_equal. by apply insert_insert_ne.
Qed.

(** X7.  [ID] reads the value stored under the name that the primary key
    answers.  On a registry returned by [newAttributes] the primary key is
    set, so [ID] does not panic; and wherever the primary key is declared
    under the name it answers, a successful assignment to that name is
    what [ID] returns afterwards. *)
Theorem ID_of_constructed recordName attrs values r :
  (attributes.newAttributes recordName attrs values).2 = Ok r →
  (∃ pk, attributes.primaryKey r = Some pk
         ∧ attributes.PrimaryKeyName r = Some (AttributeName pk)
         ∧ attributes.ID r
           = Some (attributes.lookup_nilable values (AttributeName pk)))
  ∧ (∀ pk val r',
       attributes.primaryKey r = Some pk →
       attributes.AssignAttribute r (AttributeName pk) val = (r', None) →
       attributes.ID r' = Some (Some val))
  ∧ (primaryKeys attrs = [] →
     attributes.PrimaryKeyName r = Some defaultPrimaryKeyName).
Proof.
  intros Hr.
  assert (attributes.values r = values
          ∧ ∃ pk, attributes.primaryKey r = Some pk) as (Hvalues & pk & Hpk).
  { revert Hr. unfold attributes.newAttributes.
    destruct (primaryKeys attrs) as [|[k pk] [|??]] eqn:Hkeys.
    - rewrite (scanPrimaryKey_none _ Hkeys).
      destruct (attrs !! defaultPrimaryKeyName); [done|].
      destruct (attributes.checkValues _ _ _); [done|].
      intros [= <-]. simpl. eauto.
    - rewrite (scanPrimaryKey_one _ _ _ Hkeys).
      destruct (attrs !! defaultPrimaryKeyName); [done|].
      destruct (attributes.checkValues _ _ _); [done|].
      intros [= <-]. simpl. eauto.
    - rewrite scanPrimaryKey_several; [done|]. rewrite Hkeys. simpl. lia. }
  split_and!.
  - exists pk. unfold attributes.PrimaryKeyName, attributes.ID.
    by rewrite Hpk, Hvalues.
  - intros pk' val r' Hpk' Hassign.
    unfold attributes.AssignAttribute in Hassign.
    destruct (attributes.keys r !! AttributeName pk'); [|done].
    destruct (Validate _ val); [done|].
    injection Hassign as <-. unfold attributes.ID. simpl.
    rewrite Hpk'. simpl. f_equal. apply lookup_insert_eq.
  - intros Hnone. revert Hr. unfold attributes.newAttributes.
    rewrite (scanPrimaryKey_none _ Hnone).
    destruct (attrs !! defaultPrimaryKeyName); [done|].
    destruct (attributes.checkValues _ _ _); [done|]. by intros [= <-].
Qed.
End assignment_properties.

Section assignment_examples.
Import Memory Examples.
#[local] Existing Instances types collaborators runtime.

Lemma AssignAttribute_frame_witness :
  attributes.AccessAttribute personBuilt "age" = Some 30%Z
  ∧ (∀ other, other ≠ "age" →
       attributes.AccessAttribute personBuilt other
       = attributes.AccessAttribute person other)
  ∧ (∀ other, attributes.HasAttribute personBuilt other
              = attributes.HasAttribute person other).
Proof.
  apply (AssignAttribute_frame person "age" 30%Z personBuilt).
  vm_compute. reflexivity.
Defined.

Lemma AssignAttribute_keeps_declared_witness :
  allDeclared
    (attributes.keys (attributes.AssignAttribute personBuilt "name" 5%Z).1)
    (attributes.values (attributes.AssignAttribute personBuilt "name" 5%Z).1).
Proof.
  apply (AssignAttribute_keeps_declared personBuilt "name" 5%Z).
  unfold allDeclared. apply (bool_decide_unpack _). vm_compute. exact I.
Defined.

Lemma AssignAttribute_sequence_witness :
  (attributes.AssignAttribute
     (attributes.AssignAttribute person "age" 30%Z).1 "age" 31%Z).1
  = (attributes.AssignAttribute person "age" 31%Z).1
  ∧ (attributes.AssignAttribute
       (attributes.AssignAttribute person "age" 30%Z).1 "name" 5%Z).1
    = (attributes.AssignAttribute
         (attributes.AssignAttribute person "name" 5%Z).1 "age" 30%Z).1.
Proof.
  split.
  - apply (AssignAttribute_sequence person age age "age" "age" 30%Z 31%Z);
      vm_compute; reflexivity.
  - apply (AssignAttribute_sequence person age name "age" "name" 30%Z 5%Z);
      [vm_compute; reflexivity..|discriminate].
Defined.

Lemma ID_of_constructed_witness :
  attributes.ID personBuilt = Some None
  ∧ attributes.PrimaryKeyName personBuilt = Some "id".
Proof.
  destruct (ID_of_constructed "person" schemaPlain personValues personBuilt)
    as ((pk & Hpk & _ & Hid) & _ & Hname); [vm_compute; reflexivity|].
  split.
  - injection Hpk as <-. etrans; [exact Hid|]. vm_compute. reflexivity.
  - apply Hname. vm_compute. reflexivity.
Defined.
End assignment_examples.

(** ** Sorted names *)

Section sorted_names.
Context `{Types} `{!Collaborators} `{!GoRuntime}.


Lemma String_leb_trans s1 s2 s3 :
  String.leb s1 s2 = true → String.leb s2 s3 = true →
  String.leb s1 s3 = true.
Proof.
  unfold String.leb. revert s2 s3.
  induction s1 as [|c1 s1 IH]; intros [|c2 s2] [|c3 s3]; simpl; try done.
  unfold Ascii.compare.
  destruct (N.compare_spec (N_of_ascii c1) (N_of_ascii c2)) as [H12|H12|H12],
    (N.compare_spec (N_of_ascii c2) (N_of_ascii c3)) as [H23|H23|H23],
    (N.compare_spec (N_of_ascii c1) (N_of_ascii c3)) as [H13|H13|H13];
    try done; try lia; apply IH.
Qed.

#[local] Instance leb_Transitive : Transitive byBytes.
Proof.
  intros s1 s2 s3 H12%Is_true_true H23%Is_true_true.
  apply Is_true_true. by eapply String_leb_trans.
Qed.

#[local] Instance leb_Total : Total byBytes.
Proof.
  intros s1 s2. destruct (String.leb_total s1 s2) as [Hle|Hle];
    [left|right]; by apply Is_true_true.
Qed.

#[local] Instance leb_AntiSymm : AntiSymm (=) byBytes.
Proof.
  intros s1 s2 H12%Is_true_true H21%Is_true_true.
  by apply String.leb_antisym.
Qed.

(** Sorting gives the one increasing arrangement of the names. *)
Lemma sort_Strings_unique (names sorted : list string) :
  Sorted byBytes sorted → sorted ≡ₚ names → sorted = sort_Strings names.
Proof.
  intros Hsorted Hperm. apply (Sorted_unique byBytes); [done| |].
  - apply (Sorted_merge_sort byBytes).
  - unfold sort_Strings. by rewrite Hperm, (merge_sort_Permutation byBytes).
Qed.

Lemma sort_Strings_Permutation_proper (l1 l2 : list string) :
  l1 ≡ₚ l2 → sort_Strings l1 = sort_Strings l2.
Proof.
  intros Hperm. apply sort_Strings_unique.
  - apply (Sorted_merge_sort byBytes).
  - unfold sort_Strings. by rewrite (merge_sort_Permutation byBytes).
Qed.

(** The sorted keys of a map, whatever the order in which the map is
    ranged over. *)
Lemma sorted_keys {A : Type} (m : gmap string A) :
  let names := sort_Strings ((range m).*1) in
  names = sort_Strings ((map_to_list m).*1)
  ∧ Sorted byBytes names
  ∧ NoDup names
  ∧ length names = size m
  ∧ (∀ name, name ∈ names ↔ is_Some (m !! name))
  ∧ (∀ sorted, Sorted byBytes sorted → sorted ≡ₚ (range m).*1 → sorted = names).
Proof.
  intros names. subst names.
  assert (sort_Strings ((range m).*1) ≡ₚ (map_to_list m).*1) as Hperm.
  { unfold sort_Strings.
    by rewrite (merge_sort_Permutation byBytes), (range_perm _ m). }
  split_and!.
  - apply sort_Strings_Permutation_proper. by rewrite (range_perm _ m).
  - apply (Sorted_merge_sort byBytes).
  - rewrite Hperm. apply NoDup_fst_map_to_list.
  - by rewrite Hperm, length_fmap, length_map_to_list.
  - intros name. rewrite Hperm, list_elem_of_fmap. split.
    + intros ([k v] & -> & Hkv%elem_of_map_to_list). eauto.
    + intros [v Hv]. exists (name, v). by rewrite elem_of_map_to_list.
  - intros sorted. apply sort_Strings_unique.
Qed.

(** X8.  [AttributeNames] returns the declared names, each once, in
    increasing order; the result does not depend on the order in which the
    schema is ranged over, and it is the only increasing arrangement of the
    declared names.  A name is in it exactly when [HasAttribute] holds. *)
Theorem AttributeNames_sorted (a : attributes.t) :
  attributes.AttributeNames a
  = sort_Strings ((map_to_list (attributes.keys a)).*1)
  ∧ Sorted byBytes (attributes.AttributeNames a)
  ∧ NoDup (attributes.AttributeNames a)
  ∧ length (attributes.AttributeNames a) = size (attributes.keys a)
  ∧ (∀ name, name ∈ attributes.AttributeNames a
             ↔ attributes.HasAttribute a name = true)
  ∧ (∀ sorted, Sorted byBytes sorted →
       sorted ≡ₚ (range (attributes.keys a)).*1 →
       sorted = attributes.AttributeNames a).
Proof.
  destruct (sorted_keys (attributes.keys a))
    as (Hcanonical & Hsorted & Hnodup & Hlength & Hin & Hunique).
  split_and!; try done.
  intros name. unfold attributes.HasAttribute.
  by rewrite bool_decide_eq_true.
Qed.

(** X9.  [AssociationNames] returns the declared association names, each
    once, in increasing order, whatever the order in which the registry is
    ranged over; a name is in it exactly when [HasAssociation] holds. *)
Theorem AssociationNames_sorted (a : associations.t) :
  associations.AssociationNames a
  = sort_Strings ((map_to_list (associations.keys a)).*1)
  ∧ Sorted byBytes (associations.AssociationNames a)
  ∧ NoDup (associations.AssociationNames a)
  ∧ length (associations.AssociationNames a) = size (associations.keys a)
  ∧ (∀ name, name ∈ associations.AssociationNames a
             ↔ associations.HasAssociation a name = true)
  ∧ (∀ sorted, Sorted byBytes sorted →
       sorted ≡ₚ (range (associations.keys a)).*1 →
       sorted = associations.AssociationNames a).
Proof.
  destruct (sorted_keys (associations.keys a))
    as (Hcanonical & Hsorted & Hnodup & Hlength & Hin & Hunique).
  split_and!; try done.
  intros name. unfold associations.HasAssociation.
  by rewrite bool_decide_eq_true.
Qed.
End sorted_names.

Section sorted_names_examples.
Import Memory Examples.
#[local] Existing Instances types collaborators runtime.

Lemma AttributeNames_sorted_witness :
  ["age"; "id"; "name"] = attributes.AttributeNames personBuilt.
Proof.
  apply (AttributeNames_sorted personBuilt).
  - repeat constructor.
  - apply (bool_decide_unpack _). vm_compute. exact I.
Defined.

Lemma AssociationNames_sorted_witness :
  ["parent"; "target"; "targets"] = associations.AssociationNames registry.
Proof.
  apply (AssociationNames_sorted registry).
  - repeat constructor.
  - apply (bool_decide_unpack _). vm_compute. exact I.
Defined.
End sorted_names_examples.

(** ** The resolvers *)

Section resolvers_more.
Context `{Types} `{!Collaborators} `{!GoRuntime}.

(** X10.  [BelongsTo.AccessAssociation] looks the target up and, when the
    lookup succeeds, finds in the target, within the context of the owner,
    the record whose id is the owner's attribute named by the foreign key;
    it returns what [Find] returns, and reads no relation.  An error of the
    lookup is returned without a query. *)
Theorem BelongsTo_AccessAssociation_find (a : BelongsTo.t)
    (owner : ptr ActiveRecord) (log : list Call) :
  let lookup :=
    CallReflection (BelongsTo.reflection a) (BelongsTo.targetName a) in
  (∀ targets err,
     Reflection_Reflection (BelongsTo.reflection a) (BelongsTo.targetName a)
     = (targets, Some err) →
     BelongsTo.AccessAssociation a owner log = (Err err, log ++ [lookup]))
  ∧ (∀ targets,
       Reflection_Reflection (BelongsTo.reflection a) (BelongsTo.targetName a)
       = (targets, None) →
       let rel := Relation_WithContext targets (ActiveRecord_Context owner) in
       let id :=
         ActiveRecord_Attribute owner (BelongsTo.AssociationForeignKey a) in
       BelongsTo.AccessAssociation a owner log
       = (Relation_Find rel id, log ++ [lookup; CallFind rel id])).
Proof.
  intros lookup. unfold BelongsTo.AccessAssociation; run_M. split.
  - by intros targets err ->.
  - intros targets ->. simpl. by rewrite <-(assoc_L (++)).
Qed.

(** X11.  [BelongsTo.ForeignKey] replaces the foreign key and nothing
    else: afterwards [AssociationForeignKey] answers the key given, or the
    default when the key given is empty; the name of the association is
    unchanged; and a fetch reads the owner's attribute of that name. *)
Theorem BelongsTo_ForeignKey_set (a : BelongsTo.t) (fk : string) :
  (fk ≠ "" → BelongsTo.AssociationForeignKey (BelongsTo.ForeignKey a fk) = fk)
  ∧ BelongsTo.AssociationForeignKey (BelongsTo.ForeignKey a "")
    = BelongsTo.targetName a +:+ "_id"
  ∧ BelongsTo.AssociationName (BelongsTo.ForeignKey a fk)
    = BelongsTo.AssociationName a
  ∧ (∀ fk', BelongsTo.ForeignKey (BelongsTo.ForeignKey a fk) fk'
            = BelongsTo.ForeignKey a fk')
  ∧ (∀ owner log targets,
       fk ≠ "" →
       Reflection_Reflection (BelongsTo.reflection a) (BelongsTo.targetName a)
       = (targets, None) →
       (BelongsTo.AccessAssociation (BelongsTo.ForeignKey a fk) owner log).1
       = Relation_Find
           (Relation_WithContext targets (ActiveRecord_Context owner))
           (ActiveRecord_Attribute owner fk)).
Proof.
  split_and!; try done.
  - intros Hfk. unfold BelongsTo.AssociationForeignKey. simpl.
    by rewrite decide_True.
  - intros owner log targets Hfk Hlookup.
    unfold BelongsTo.AccessAssociation; run_M. simpl. rewrite Hlookup. simpl.
    unfold BelongsTo.AssociationForeignKey. simpl. by rewrite decide_True.
Qed.
End resolvers_more.

(** ** The registry *)

Section registry_more.
Context `{Types} `{!Collaborators} `{!GoRuntime}.
Implicit Types (a : associations.t) (log : list Call).

(** X12.  [HasAssociations] holds exactly when every name given is
    declared, so it holds of no names at all, and it holds of the names
    that [AssociationNames] returns. *)
Theorem HasAssociations_all a (assocNames : list string) :
  (associations.HasAssociations a assocNames = true
   ↔ ∀ name, name ∈ assocNames → is_Some (associations.keys a !! name))
  ∧ associations.HasAssociations a [] = true
  ∧ associations.HasAssociations a (associations.AssociationNames a) = true.
Proof.
  assert (∀ names, associations.HasAssociations a names = true
                   ↔ ∀ name, name ∈ names
                             → is_Some (associations.keys a !! name)) as Hall.
  { intros names. unfold associations.HasAssociations.
    rewrite forallb_forall. unfold associations.HasAssociation.
    split; intros Hnames name Hname.
    - apply list_elem_of_In, Hnames in Hname.
      by apply bool_decide_eq_true in Hname.
    - apply bool_decide_eq_true, Hnames. by apply list_elem_of_In. }
  split_and!; [apply Hall|done|].
  apply Hall. intros name Hname.
  by apply (sorted_keys (associations.keys a)) in Hname.
Qed.

(** X13.  [ReflectOnAssociation] makes no lookup for an undeclared name
    and returns nil.  For a declared name it returns nil when the lookup
    returns an error, and otherwise the relation that the lookup returned,
    be it nil, paired with the declared association. *)
Theorem ReflectOnAssociation_result a assocName log :
  (associations.keys a !! assocName = None →
     associations.ReflectOnAssociation a assocName log = (nil, log))
  ∧ (∀ assoc rel err,
       associations.keys a !! assocName = Some assoc →
       Reflection_Reflection (associations.reflection a)
         (AssociationName assoc) = (rel, Some err) →
       (associations.ReflectOnAssociation a assocName log).1 = nil)
  ∧ (∀ assoc rel,
       associations.keys a !! assocName = Some assoc →
       Reflection_Reflection (associations.reflection a)
         (AssociationName assoc) = (rel, None) →
       (associations.ReflectOnAssociation a assocName log).1
       = Some (mkAssociationReflection rel assoc)).
Proof.
  unfold associations.ReflectOnAssociation. rewrite get_lookup.
  split_and!.
  - by intros ->.
  - intros assoc rel err -> Hlookup. run_M. by rewrite Hlookup.
  - intros assoc rel -> Hlookup. run_M. by rewrite Hlookup.
Qed.

Lemma omap_length_le {A B : Type} (f : A → option B) (l : list A) :
  (length (omap f l) ≤ length l)%nat.
Proof.
  induction l as [|x l IH]; [done|].
  change (omap f (x :: l))
    with (match f x with Some y => y :: omap f l | None => omap f l end).
  destruct (f x); simpl; lia.
Qed.

(** X14.  [ReflectOnAllAssociations] makes one lookup for each declared
    association and executes no query.  Up to the order in which the
    registry is ranged over, it returns the declared associations whose
    lookup returns a relation, each paired with that relation, whether or
    not the lookup also returns an error. *)
Theorem ReflectOnAllAssociations_result a log :
  (associations.ReflectOnAllAssociations a log).1
  ≡ₚ omap (λ kv, reflected (associations.reflection a) kv.2)
          (map_to_list (associations.keys a))
  ∧ (∃ calls,
       (associations.ReflectOnAllAssociations a log).2 = log ++ calls
       ∧ calls ≡ₚ (λ kv, lookupCall (associations.reflection a) kv.2)
                  <$> map_to_list (associations.keys a)
       ∧ length calls = size (associations.keys a)
       ∧ terminalCalls calls = [])
  ∧ (length (associations.ReflectOnAllAssociations a log).1
     ≤ size (associations.keys a))%nat.
Proof.
  unfold associations.ReflectOnAllAssociations.
  rewrite reflectOnEach_spec. simpl.
  pose proof (range_perm _ (associations.keys a)) as Hperm.
  split_and!.
  - by rewrite Hperm.
  - eexists. split; [done|]. split_and!.
    + by rewrite Hperm.
    + by rewrite length_fmap, Hperm, length_map_to_list.
    + unfold terminalCalls. clear Hperm.
      induction (range (associations.keys a)) as [|kv l IH]; [done|].
      rewrite fmap_cons, filter_cons_False; [exact IH|]. simpl. exact id.
  - rewrite <-length_map_to_list, <-Hperm. apply omap_length_le.
Qed.
(** X15.  When the lookup of the registry returns a relation exactly when
    it returns no error, the two reflection functions agree: the
    reflections that [ReflectOnAllAssociations] returns are those that
    [ReflectOnAssociation] returns for some name. *)
Theorem reflections_agree a log log' :
  (∀ name,
     is_Some (Reflection_Reflection (associations.reflection a) name).1
     ↔ (Reflection_Reflection (associations.reflection a) name).2 = None) →
  ∀ aref,
    aref ∈ (associations.ReflectOnAllAssociations a log).1
    ↔ ∃ assocName,
        (associations.ReflectOnAssociation a assocName log').1 = Some aref.
Proof.
  intros Hlookup aref.
  unfold associations.ReflectOnAllAssociations,
    associations.ReflectOnAssociation.
  rewrite reflectOnEach_spec. simpl. rewrite list_elem_of_omap. split.
  - intros ([k assoc] & Hk%range_elem_of & Haref). exists k.
    rewrite get_lookup, Hk. run_M.
    unfold reflected in Haref. simpl in Haref.
    pose proof (Hlookup (AssociationName assoc)) as Hiff.
    destruct (Reflection_Reflection _ (AssociationName assoc))
      as [rel err] eqn:Hrel. simpl in *.
    destruct rel as [rel|]; [|done]. injection Haref as <-.
    assert (err = None) as -> by (apply Hiff; eauto). done.
  - intros [assocName Haref]. rewrite get_lookup in Haref.
    destruct (associations.keys a !! assocName) as [assoc|] eqn:Hkey;
      [|done].
    exists (assocName, assoc). split; [by apply range_elem_of|].
    revert Haref. run_M. unfold reflected. simpl.
    pose proof (Hlookup (AssociationName assoc)) as Hiff.
    destruct (Reflection_Reflection _ (AssociationName assoc))
      as [rel [err|]] eqn:Hrel; simpl in *; [done|].
    intros [= <-]. destruct Hiff as [_ [rel' ->]]; done.
Qed.

(** X16.  [Collection] executes no query, whatever the name and whatever
    is cached: for a name declared as [HasMany] whose target is found it
    returns the target within the context of the registry's record,
    narrowed by the foreign key to the id of that record, after the one
    lookup. *)
Theorem Collection_lazy a collName log :
  terminalCalls (associations.Collection a collName log).2 = terminalCalls log
  ∧ (∀ m targets,
       associations.keys a !! collName = Some (HasMany m) →
       Reflection_Reflection (HasMany.reflection m) (HasMany.targetName m)
       = (targets, None) →
       associations.Collection a collName log
       = (Ok (narrowed targets (HasMany.AssociationForeignKey m)
                (associations.rec a)),
          log ++ [CallReflection (HasMany.reflection m)
                    (HasMany.targetName m)])).
Proof.
  unfold associations.Collection. rewrite get_lookup. split.
  - destruct (associations.keys a !! collName) as [[b|m|o]|]; try done.
    simpl. unfold HasMany.AccessCollection; run_M.
    destruct (Reflection_Reflection _ _) as [targets [err|]]; simpl;
      unfold terminalCalls; by rewrite filter_app, app_nil_r.
  - intros m targets -> Hlookup. simpl.
    unfold HasMany.AccessCollection; run_M. by rewrite Hlookup.
Qed.

(** X17.  [Association] only adds to the log: at most two calls, of which
    at most one executes a query; and none at all for an undeclared name
    or a name with a cached record. *)
Theorem Association_calls a assocName log :
  ∃ calls,
    (associations.Association a assocName log).2 = log ++ calls
    ∧ (length calls ≤ 2)%nat
    ∧ (length (terminalCalls calls) ≤ 1)%nat
    ∧ (associations.keys a !! assocName = None
       ∨ is_Some (associations.values a !! assocName) → calls = []).
Proof.
  unfold associations.Association. rewrite get_lookup.
  destruct (associations.keys a !! assocName) as [assoc|] eqn:Hkey;
    [|exists []; rewrite app_nil_r; split_and!; [done|simpl; lia..|done]].
  destruct (associations.values a !! assocName) as [rec|] eqn:Hvalue;
    [exists []; rewrite app_nil_r; split_and!; [done|simpl; lia..|done]|].
  destruct assoc as [b|m|o]; simpl.
  - unfold BelongsTo.AccessAssociation; run_M.
    destruct (Reflection_Reflection _ _) as [targets [err|]]; simpl.
    + eexists [_]. split_and!; [done|simpl; lia|simpl; lia|].
      by intros [?|[??]].
    + eexists [_; _]. rewrite <-(assoc_L (++)).
      split_and!; [done|simpl; lia|simpl; lia|]. by intros [?|[??]].
  - exists []. rewrite app_nil_r. split_and!; [done|simpl; lia..|done].
  - unfold HasOne.AccessAssociation; run_M.
    destruct (Reflection_Reflection _ _) as [targets [err|]]; simpl.
    + eexists [_]. split_and!; [done|simpl; lia|simpl; lia|].
      by intros [?|[??]].
    + eexists [_; _]. split.
      { destruct (Relation_ToA _) as [[|? [|??]] [?|]]; simpl;
          by rewrite <-(assoc_L (++)). }
      split_and!; [simpl; lia|simpl; lia|]. by intros [?|[??]].
Qed.

(** X18.  No function of association.go puts a record into the cache: on
    a registry built by [newAssociations], [delegateAccessors] and [copy]
    the cache is empty, so that [Association] returns the error of a
    non-singular association for every name declared as [HasMany], and
    runs the resolver of every name declared as [BelongsTo] or [HasOne]
    with the registry's record. *)
Theorem built_dispatch a assocName log :
  built a →
  associations.values a = ∅
  ∧ (∀ m, associations.keys a !! assocName = Some (HasMany m) →
       associations.Association a assocName log
       = (Err (ErrAssociation
                 ("'" +:+ assocName +:+ "' is not a singular association")),
          log))
  ∧ (∀ assoc resolve,
       associations.keys a !! assocName = Some assoc →
       asSingular assoc = Some resolve →
       associations.Association a assocName log
       = resolve (associations.rec a) log).
Proof.
  intros Hvalues%built_values. split; [done|].
  unfold associations.Association. rewrite get_lookup, Hvalues, lookup_empty.
  split.
  - by intros m ->.
  - by intros assoc resolve -> ->.
Qed.
End registry_more.

Section associations_examples.
Import Memory Examples.
#[local] Existing Instances types collaborators runtime.

Lemma BelongsTo_AccessAssociation_find_witness :
  BelongsTo.AccessAssociation belongsTo child []
  = (Err (ErrForeign "unknown relation Target"), [CallReflection db "Target"])
  ∧ BelongsTo.AccessAssociation belongsToKeyed child []
    = (Ok (Some target1),
       [CallReflection db "target"; CallFind (targetsWithin 7) 1%Z])
  ∧ BelongsTo.AccessAssociation belongsToKeyed (ownerOf 1) []
    = (Err (ErrForeign "record not found"),
       [CallReflection db "target"; CallFind (targetsWithin 7) 0%Z]).
Proof.
  pose proof (BelongsTo_AccessAssociation_find belongsTo child []) as Hlost.
  pose proof (λ owner, BelongsTo_AccessAssociation_find belongsToKeyed owner [])
    as Hfind.
  cbv zeta in Hlost, Hfind. destruct Hlost as (Hlost & _).
  split_and!.
  - etrans; [eapply Hlost|]; vm_compute; reflexivity.
  - etrans; [apply (proj2 (Hfind child) (targetsWithin 0))|];
      vm_compute; reflexivity.
  - etrans; [apply (proj2 (Hfind (ownerOf 1)) (targetsWithin 0))|];
      vm_compute; reflexivity.
Defined.

Lemma BelongsTo_ForeignKey_set_witness :
  BelongsTo.AssociationForeignKey (BelongsTo.ForeignKey belongsTo "parent")
  = "parent"
  ∧ (BelongsTo.AccessAssociation
       (BelongsTo.ForeignKey belongsToKeyed "Target_id") (ownerOf 1) []).1
    = Ok (Some target2).
Proof.
  split.
  - apply (BelongsTo_ForeignKey_set belongsTo "parent"). discriminate.
  - etrans;
      [apply (BelongsTo_ForeignKey_set belongsToKeyed "Target_id")
         with (targets := targetsWithin 0)|];
      [discriminate|vm_compute; reflexivity..].
Defined.

Lemma HasAssociations_all_witness :
  associations.HasAssociations registry ["parent"; "target"] = true.
Proof.
  apply (proj2 (proj1 (HasAssociations_all registry ["parent"; "target"]))).
  intros name [->|[->|[]%elem_of_nil]%elem_of_cons]%elem_of_cons;
    vm_compute; eauto.
Defined.

Lemma ReflectOnAssociation_result_witness :
  associations.ReflectOnAssociation registry "friends" [] = (nil, [])
  ∧ (associations.ReflectOnAssociation registry "target" []).1 = nil
  ∧ (associations.ReflectOnAssociation registry "parent" []).1
    = Some (mkAssociationReflection (targetsWithin 0) (BelongsTo belongsToKeyed)).
Proof.
  pose proof (λ name, ReflectOnAssociation_result registry name [])
    as Hresult.
  split_and!.
  - apply (Hresult "friends"). vm_compute. reflexivity.
  - apply (proj1 (proj2 (Hresult "target")) (HasOne hasOne) nil
             (@ErrForeign types "unknown relation target_id"));
      vm_compute; reflexivity.
  - apply (proj2 (proj2 (Hresult "parent")) (BelongsTo belongsToKeyed));
      vm_compute; reflexivity.
Defined.

(** The lookup of the in-memory schema returns a relation exactly when it
    returns no error. *)
Lemma lookupKind_sound (schema : ptr Schema) (name : string) :
  is_Some (lookupKind schema name).1 ↔ (lookupKind schema name).2 = None.
Proof.
  unfold lookupKind. destruct schema as [schema|].
  - destruct (list_find _ schema) as [[? ?]|]; simpl;
      (split; [try done; by intros [??]|try done; eauto]).
  - simpl. split; [by intros [??]|done].
Qed.

Lemma reflections_agree_witness :
  mkAssociationReflection (targetsWithin 0) (BelongsTo belongsToKeyed)
  ∈ (associations.ReflectOnAllAssociations registry []).1.
Proof.
  apply (reflections_agree registry [] []).
  - intros name. exact (lookupKind_sound db name).
  - exists "parent". vm_compute. reflexivity.
Defined.

Lemma Collection_lazy_witness :
  associations.Collection registryCached "targets" []
  = (Ok (Some (mkQuery "target" targets 7 [("owner_id", 1%Z)] None)),
     [CallReflection db "target"]).
Proof.
  etrans;
    [apply (proj2 (Collection_lazy registryCached "targets" []) hasMany
              (targetsWithin 0))|];
    vm_compute; reflexivity.
Defined.

Lemma Association_calls_witness :
  (associations.Association registryCached "target" []).2 = [].
Proof.
  destruct (Association_calls registryCached "target" [])
    as (calls & Hlog & _ & _ & Hnone).
  rewrite Hlog, Hnone; [reflexivity|].
  right. exists (Some target2'). vm_compute. reflexivity.
Defined.

Lemma built_dispatch_witness :
  associations.Association registry "targets" []
  = (Err (ErrAssociation "'targets' is not a singular association"), []).
Proof.
  destruct (built_dispatch registry "targets" []) as (_ & Hmany & _).
  - apply built_delegate, built_new.
  - apply (Hmany hasMany). vm_compute. reflexivity.
Defined.
End associations_examples.
